(** * A shallow embedding of the Z.AI proxy worker (src/worker.ts)

    The worker is a Hono application: a bearer-key middleware, a request
    signer (HMAC-SHA256 over a canonical string), a session bootstrapper
    and a generator, [chatStream], that translates the upstream
    server-sent-event stream into text deltas.

    JavaScript strings are sequences of UTF-16 code units, byte arrays are
    sequences of octets, and the values that come out of [JSON.parse] are
    dynamically typed; the embedding keeps all three.  Functions that can
    throw return a [result]; the generator [chatStream] returns what it
    yielded, how it ended and the session it leaves.  The clock, the
    random numbers and the answers of the upstream are the fields of a
    [World].  The builtins of the platform are spelled out after their
    standards (UTF-8, base64, the URI coding functions, SHA-256 and HMAC),
    except [JSON.parse], numbers and [toLowerCase], which are the fields
    of a [Runtime]. *)

From Stdlib Require Import List ZArith NArith Lia Bool String Ascii.
From Stdlib.Strings Require Byte.
Import ListNotations.

Set Warnings "-register-all".
Local Open Scope N_scope.

(** ** JavaScript strings *)

(** A UTF-16 code unit and a string of them. *)
Definition cu := N.
Definition jsstring := list cu.

(** An octet, as the element of a [Uint8Array]. *)
Definition octet := N.

(** ASCII literals of the source text. *)
Definition lit (s : string) : jsstring :=
  map N_of_ascii (list_ascii_of_string s).

(** The double quote, which the literals above cannot contain. *)
Definition dquote : cu := 34.

Definition NL : cu := 10.

(** [a === b] on strings. *)
Fixpoint str_eqb (a b : jsstring) : bool :=
  match a, b with
  | [], [] => true
  | x :: a', y :: b' => (x =? y) && str_eqb a' b'
  | _, _ => false
  end.

(** [s.startsWith(p)] *)
Fixpoint startsWith (s p : jsstring) : bool :=
  match p, s with
  | [], _ => true
  | y :: p', x :: s' => (x =? y) && startsWith s' p'
  | _ :: _, [] => false
  end.

(** [s.slice(n)] and [s.substring(n)] for a constant [n >= 0]. *)
Definition slice_from (n : nat) (s : jsstring) : jsstring := skipn n s.

(** [s.split(sep)] for a one-unit separator: never the empty array. *)
Fixpoint split_on (sep : cu) (s : jsstring) : list jsstring :=
  match s with
  | [] => [[]]
  | c :: s' =>
      if c =? sep then [] :: split_on sep s'
      else match split_on sep s' with
           | [] => [[c]]
           | l :: ls => (c :: l) :: ls
           end
  end.

(** [a.pop()]: the removed last element (or undefined) and what is left. *)
Definition pop {A : Type} (l : list A) : option A * list A :=
  match rev l with
  | [] => (None, [])
  | x :: r => (Some x, rev r)
  end.

(** [a.join(sep)] on an array of strings. *)
Fixpoint join (sep : jsstring) (l : list jsstring) : jsstring :=
  match l with
  | [] => []
  | [x] => x
  | x :: rest => x ++ sep ++ join sep rest
  end.

(** White space and line terminators, as [String.prototype.trim] strips
    them. *)
Definition is_js_space (c : cu) : bool :=
  ((9 <=? c) && (c <=? 13)) || (c =? 32) || (c =? 160) || (c =? 5760)
  || ((8192 <=? c) && (c <=? 8202)) || (c =? 8232) || (c =? 8233)
  || (c =? 8239) || (c =? 8287) || (c =? 12288) || (c =? 65279).

Fixpoint trimStart (s : jsstring) : jsstring :=
  match s with
  | c :: s' => if is_js_space c then trimStart s' else s
  | [] => []
  end.

Definition trim (s : jsstring) : jsstring :=
  rev (trimStart (rev (trimStart s))).

(** [s.length] *)
Definition str_length (s : jsstring) : N := N.of_nat (List.length s).

(** ** Dynamically typed values

    What [JSON.parse] and [response.json()] return, and [undefined] for a
    property that is not there.  Numbers are IEEE doubles in the source;
    the embedding leaves their type open and asks the runtime for the two
    operations the program applies to them. *)

Inductive value (Num : Type) : Type :=
| VUndefined
| VNull
| VBool (b : bool)
| VNum (n : Num)
| VStr (s : jsstring)
| VArr (elems : list (value Num))
| VObj (fields : list (jsstring * value Num)).

Arguments VUndefined {Num}.
Arguments VNull {Num}.
Arguments VBool {Num} b.
Arguments VNum {Num} n.
Arguments VStr {Num} s.
Arguments VArr {Num} elems.
Arguments VObj {Num} fields.

(** Own-property lookup in an object literal. *)
Fixpoint lookup {A : Type} (k : jsstring) (fields : list (jsstring * A)) : option A :=
  match fields with
  | [] => None
  | (k', v) :: rest => if str_eqb k k' then Some v else lookup k rest
  end.

(** The builtins of the JavaScript runtime that the embedding does not
    spell out. *)
Class Runtime := {
  Number : Type;
  (** ToBoolean on a number: false on zero (and NaN) *)
  Number_truthy : Number -> bool;
  (** Number::toString *)
  Number_toString : Number -> jsstring;
  (** [JSON.parse]; [None] is the SyntaxError *)
  JSON_parse : jsstring -> option (value Number);
  (** [String.prototype.toLowerCase] *)
  toLowerCase : jsstring -> jsstring;
}.

Section Values.
Context {RT : Runtime}.

Definition jsval := value Number.

(** ToBoolean *)
Definition truthy (v : jsval) : bool :=
  match v with
  | VUndefined | VNull => false
  | VBool b => b
  | VNum n => Number_truthy n
  | VStr s => match s with [] => false | _ => true end
  | VArr _ | VObj _ => true
  end.

(** [a || b] *)
Definition js_or (a b : jsval) : jsval := if truthy a then a else b.

(** [v.k] for the property names the program reads ([data],
    [delta_content], [choices], [delta], [content], [token], [id],
    [email]); none of them is inherited from a prototype, so only own
    properties of objects answer.  [None] is the TypeError of reading a
    property of [null] or [undefined]. *)
Definition get (v : jsval) (k : jsstring) : option jsval :=
  match v with
  | VUndefined | VNull => None
  | VObj fields =>
      Some match lookup k fields with Some x => x | None => VUndefined end
  | _ => Some VUndefined
  end.

(** [v[0]] *)
Definition get0 (v : jsval) : option jsval :=
  match v with
  | VUndefined | VNull => None
  | VObj fields =>
      Some match lookup (lit "0") fields with Some x => x | None => VUndefined end
  | VArr (x :: _) => Some x
  | VStr (c :: _) => Some (VStr [c])
  | _ => Some VUndefined
  end.

(** [v?.k] *)
Definition get_opt (v : jsval) (k : jsstring) : jsval :=
  match get v k with
  | Some x => x
  | None => VUndefined
  end.

(** ToString, as string concatenation, template literals, [String(v)] and
    [Array.prototype.join] apply it.  [None] is the TypeError that
    OrdinaryToPrimitive raises on an object whose own [toString] property
    (necessarily not callable, coming from JSON) hides the inherited
    one. *)
Fixpoint toString (v : jsval) : option jsstring :=
  match v with
  | VUndefined => Some (lit "undefined")
  | VNull => Some (lit "null")
  | VBool true => Some (lit "true")
  | VBool false => Some (lit "false")
  | VNum n => Some (Number_toString n)
  | VStr s => Some s
  | VArr elems =>
      (fix go (l : list jsval) : option jsstring :=
         match l with
         | [] => Some []
         | x :: rest =>
             let item :=
               match x with
               | VUndefined | VNull => Some []
               | _ => toString x
               end in
             match item, rest with
             | None, _ => None
             | Some s, [] => Some s
             | Some s, _ :: _ =>
                 match go rest with
                 | Some t => Some (s ++ lit "," ++ t)
                 | None => None
                 end
             end
         end) elems
  | VObj fields =>
      match lookup (lit "toString") fields with
      | Some _ => None
      | None => Some (lit "[object Object]")
      end
  end.

End Values.

(** ** UTF-8, as [TextDecoder] and [TextEncoder] implement it *)

(** The state of the UTF-8 decoder of the Encoding standard. *)
Record utf8_state := {
  u_cp : N;
  u_seen : N;
  u_needed : N;
  u_lower : N;
  u_upper : N
}.

Definition utf8_start : utf8_state :=
  {| u_cp := 0; u_seen := 0; u_needed := 0; u_lower := 0x80; u_upper := 0xBF |}.

(** A byte read while no sequence is open.  An output item is a code
    point, or [None] for a decoding error. *)
Definition utf8_lead (b : octet) : utf8_state * list (option N) :=
  if b <=? 0x7F then (utf8_start, [Some b])
  else if (0xC2 <=? b) && (b <=? 0xDF) then
    ({| u_cp := N.land b 0x1F; u_seen := 0; u_needed := 1;
        u_lower := 0x80; u_upper := 0xBF |}, [])
  else if (0xE0 <=? b) && (b <=? 0xEF) then
    ({| u_cp := N.land b 0xF; u_seen := 0; u_needed := 2;
        u_lower := if b =? 0xE0 then 0xA0 else 0x80;
        u_upper := if b =? 0xED then 0x9F else 0xBF |}, [])
  else if (0xF0 <=? b) && (b <=? 0xF4) then
    ({| u_cp := N.land b 0x7; u_seen := 0; u_needed := 3;
        u_lower := if b =? 0xF0 then 0x90 else 0x80;
        u_upper := if b =? 0xF4 then 0x8F else 0xBF |}, [])
  else (utf8_start, [None]).

(** One byte through the decoder.  A byte that cannot continue the open
    sequence ends it with an error and is read again as a lead byte. *)
Definition utf8_handler (st : utf8_state) (b : octet) : utf8_state * list (option N) :=
  if u_needed st =? 0 then utf8_lead b
  else if (b <? u_lower st) || (u_upper st <? b) then
    let (st', out) := utf8_lead b in (st', None :: out)
  else
    let cp := N.lor (N.shiftl (u_cp st) 6) (N.land b 0x3F) in
    if u_seen st + 1 =? u_needed st then (utf8_start, [Some cp])
    else ({| u_cp := cp; u_seen := u_seen st + 1; u_needed := u_needed st;
             u_lower := 0x80; u_upper := 0xBF |}, []).

(** A code point as one or two UTF-16 code units. *)
Definition utf16_of_cp (c : N) : jsstring :=
  if c <? 0x10000 then [c]
  else [0xD800 + N.shiftr (c - 0x10000) 10; 0xDC00 + N.land (c - 0x10000) 0x3FF].

(** [new TextDecoder()]: UTF-8, replacement error mode, and a leading byte
    order mark is dropped. *)
Record TextDecoder := {
  td_utf8 : utf8_state;
  td_bom_seen : bool
}.

Definition new_TextDecoder : TextDecoder :=
  {| td_utf8 := utf8_start; td_bom_seen := false |}.

Fixpoint td_items (bom_seen : bool) (items : list (option N)) : bool * jsstring :=
  match items with
  | [] => (bom_seen, [])
  | item :: rest =>
      let c := match item with Some c => c | None => 0xFFFD end in
      let (seen', out) := td_items true rest in
      if bom_seen then (seen', utf16_of_cp c ++ out)
      else if c =? 0xFEFF then (seen', out)
      else (seen', utf16_of_cp c ++ out)
  end.

(** [decoder.decode(value, { stream: true })]: bytes of an unfinished
    sequence stay in the decoder for the next call. *)
Fixpoint decode (d : TextDecoder) (bytes : list Byte.byte) : TextDecoder * jsstring :=
  match bytes with
  | [] => (d, [])
  | b :: rest =>
      let (st, items) := utf8_handler (td_utf8 d) (Byte.to_N b) in
      let (seen, out) := td_items (td_bom_seen d) items in
      let (d', out') := decode {| td_utf8 := st; td_bom_seen := seen |} rest in
      (d', out ++ out')
  end.

(** [new TextEncoder().encode(s)]: UTF-8, a lone surrogate becoming
    U+FFFD. *)
Definition utf8_of_cp (c : N) : list octet :=
  if c <? 0x80 then [c]
  else if c <? 0x800 then [0xC0 + N.shiftr c 6; 0x80 + N.land c 0x3F]
  else if c <? 0x10000 then
    [0xE0 + N.shiftr c 12; 0x80 + N.land (N.shiftr c 6) 0x3F; 0x80 + N.land c 0x3F]
  else
    [0xF0 + N.shiftr c 18; 0x80 + N.land (N.shiftr c 12) 0x3F;
     0x80 + N.land (N.shiftr c 6) 0x3F; 0x80 + N.land c 0x3F].

Definition is_high_surrogate (c : cu) : bool := (0xD800 <=? c) && (c <=? 0xDBFF).
Definition is_low_surrogate (c : cu) : bool := (0xDC00 <=? c) && (c <=? 0xDFFF).

Definition cp_of_pair (hi lo : cu) : N :=
  0x10000 + N.shiftl (hi - 0xD800) 10 + (lo - 0xDC00).

(** The code points of a string; [None] stands for a lone surrogate. *)
Fixpoint code_points (s : jsstring) : list (option N) :=
  match s with
  | [] => []
  | c :: rest =>
      if is_high_surrogate c then
        match rest with
        | d :: rest' =>
            if is_low_surrogate d then Some (cp_of_pair c d) :: code_points rest'
            else None :: code_points rest
        | [] => [None]
        end
      else if is_low_surrogate c then None :: code_points rest
      else Some c :: code_points rest
  end.

Definition TextEncoder_encode (s : jsstring) : list octet :=
  flat_map (fun p => match p with
                     | Some c => utf8_of_cp c
                     | None => utf8_of_cp 0xFFFD
                     end) (code_points s).

(** ** Errors *)

(** The exceptions that the modelled code can raise. *)
Inductive exn :=
| TypeError
| URIError
| DataError
| InvalidCharacterError
| SyntaxError
| FetchFailed
| UpstreamStatus (status : N)
| BodyIsNull
| ReadFailed.

(** A computation that returns or throws. *)
Inductive result (A : Type) : Type :=
| Ok (a : A)
| Throw (e : exn).

Arguments Ok {A} a.
Arguments Throw {A} e.

Definition bind {A B : Type} (m : result A) (k : A -> result B) : result B :=
  match m with
  | Ok a => k a
  | Throw e => Throw e
  end.

Notation "'let!' x ':=' m 'in' k" := (bind m (fun x => k))
  (at level 10, x name, m at level 100, k at level 200).

(** ** Hexadecimal and base64 *)

Definition hex_digit (upper : bool) (d : N) : cu :=
  if d <? 10 then 48 + d else (if upper then 55 else 87) + d.

(** [b.toString(16).padStart(2, '0')] for an octet. *)
Definition hex_byte (b : octet) : jsstring :=
  [hex_digit false (b / 16); hex_digit false (b mod 16)].

Definition hex_of_bytes (bs : list octet) : jsstring := flat_map hex_byte bs.

(** The value of a hexadecimal digit. *)
Definition hex_value (c : cu) : option N :=
  if (48 <=? c) && (c <=? 57) then Some (c - 48)
  else if (65 <=? c) && (c <=? 70) then Some (c - 55)
  else if (97 <=? c) && (c <=? 102) then Some (c - 87)
  else None.

Definition b64_char (i : N) : cu :=
  if i <? 26 then 65 + i
  else if i <? 52 then 97 + (i - 26)
  else if i <? 62 then 48 + (i - 52)
  else if i =? 62 then 43 else 47.

Fixpoint b64_encode (bs : list octet) : jsstring :=
  match bs with
  | [] => []
  | [a] =>
      [b64_char (a / 4); b64_char ((a mod 4) * 16); 61; 61]
  | [a; b] =>
      [b64_char (a / 4); b64_char ((a mod 4) * 16 + b / 16);
       b64_char ((b mod 16) * 4); 61]
  | a :: b :: c :: rest =>
      [b64_char (a / 4); b64_char ((a mod 4) * 16 + b / 16);
       b64_char ((b mod 16) * 4 + c / 64); b64_char (c mod 64)]
      ++ b64_encode rest
  end.

(** [btoa(s)]: every code unit has to be an octet. *)
Definition btoa (s : jsstring) : result jsstring :=
  if forallb (fun c => c <=? 255) s then Ok (b64_encode s)
  else Throw InvalidCharacterError.

Definition b64_value (c : cu) : option N :=
  if (65 <=? c) && (c <=? 90) then Some (c - 65)
  else if (97 <=? c) && (c <=? 122) then Some (c - 97 + 26)
  else if (48 <=? c) && (c <=? 57) then Some (c - 48 + 52)
  else if c =? 43 then Some 62
  else if c =? 47 then Some 63
  else None.

Definition is_ascii_whitespace (c : cu) : bool :=
  (c =? 9) || (c =? 10) || (c =? 12) || (c =? 13) || (c =? 32).

(** Groups of four sextets into three octets; a last group of two or three
    gives one or two octets, its spare bits discarded. *)
Fixpoint b64_octets (v : list N) : list octet :=
  match v with
  | a :: b :: c :: d :: rest =>
      [a * 4 + b / 16; (b mod 16) * 16 + c / 4; (c mod 4) * 64 + d]
      ++ b64_octets rest
  | [a; b; c] => [a * 4 + b / 16; (b mod 16) * 16 + c / 4]
  | [a; b] => [a * 4 + b / 16]
  | _ => []
  end.

Fixpoint b64_values (s : jsstring) : option (list N) :=
  match s with
  | [] => Some []
  | c :: rest =>
      match b64_value c, b64_values rest with
      | Some v, Some vs => Some (v :: vs)
      | _, _ => None
      end
  end.

(** [atob(s)], the forgiving-base64 decode of the HTML standard. *)
Definition atob (s : jsstring) : result jsstring :=
  let data := filter (fun c => negb (is_ascii_whitespace c)) s in
  let n := List.length data in
  let data :=
    if (Nat.modulo n 4 =? 0)%nat then
      match rev data with
      | 61 :: 61 :: r => rev r
      | 61 :: r => rev r
      | _ => data
      end
    else data in
  if (Nat.modulo (List.length data) 4 =? 1)%nat then Throw InvalidCharacterError
  else match b64_values data with
       | Some vs => Ok (b64_octets vs)
       | None => Throw InvalidCharacterError
       end.

(** ** The URI coding functions behind [base64Encode] and [base64Decode] *)

Definition is_alnum (c : cu) : bool :=
  ((48 <=? c) && (c <=? 57)) || ((65 <=? c) && (c <=? 90))
  || ((97 <=? c) && (c <=? 122)).

Definition percent (b : octet) : jsstring :=
  [37; hex_digit true (b / 16); hex_digit true (b mod 16)].

(** The characters [encodeURIComponent] leaves alone: alphanumerics and
    [- _ . ! ~ * ' ( )]. *)
Definition uri_unreserved (c : N) : bool :=
  is_alnum c || existsb (N.eqb c) [45; 95; 46; 33; 126; 42; 39; 40; 41].

(** [encodeURIComponent(s)] *)
Fixpoint encode_code_points (ps : list (option N)) : result jsstring :=
  match ps with
  | [] => Ok []
  | None :: _ => Throw URIError
  | Some c :: rest =>
      let! r := encode_code_points rest in
      Ok ((if uri_unreserved c then [c] else flat_map percent (utf8_of_cp c)) ++ r)
  end.

Definition encodeURIComponent (s : jsstring) : result jsstring :=
  encode_code_points (code_points s).

Definition hex2 (a b : cu) : option N :=
  match hex_value a, hex_value b with
  | Some x, Some y => Some (16 * x + y)
  | _, _ => None
  end.

(** [unescape(s)] *)
Fixpoint unescape (s : jsstring) : jsstring :=
  match s with
  | [] => []
  | c :: rest =>
      let plain := c :: unescape rest in
      if c =? 37 then
        match rest with
        | h1 :: rest1 =>
            if h1 =? 117 then
              match rest1 with
              | a :: b :: c' :: d :: rest' =>
                  match hex2 a b, hex2 c' d with
                  | Some x, Some y => (256 * x + y) :: unescape rest'
                  | _, _ => plain
                  end
              | _ => plain
              end
            else
              match rest1 with
              | h2 :: rest' =>
                  match hex2 h1 h2 with
                  | Some x => x :: unescape rest'
                  | None => plain
                  end
              | [] => plain
              end
        | [] => plain
        end
      else plain
  end.

(** The characters [escape] leaves alone: alphanumerics and
    [@ * _ + - . /]. *)
Definition escape_unreserved (c : cu) : bool :=
  is_alnum c || existsb (N.eqb c) [64; 42; 95; 43; 45; 46; 47].

(** [escape(s)] *)
Definition escape (s : jsstring) : jsstring :=
  flat_map (fun c =>
    if escape_unreserved c then [c]
    else if c <? 256 then percent c
    else [37; 117; hex_digit true (c / 4096); hex_digit true ((c / 256) mod 16);
          hex_digit true ((c / 16) mod 16); hex_digit true (c mod 16)]) s.

(** The items of a percent-encoded string: a code unit standing for
    itself, or an escaped octet. *)
Inductive uri_item := Plain (c : cu) | Escaped (b : octet).

Fixpoint uri_items (s : jsstring) : result (list uri_item) :=
  match s with
  | [] => Ok []
  | c :: rest =>
      if c =? 37 then
        match rest with
        | h1 :: h2 :: rest' =>
            match hex2 h1 h2 with
            | Some b => let! r := uri_items rest' in Ok (Escaped b :: r)
            | None => Throw URIError
            end
        | _ => Throw URIError
        end
      else let! r := uri_items rest in Ok (Plain c :: r)
  end.

(** The escaped octets have to be well-formed UTF-8, sequence by
    sequence. *)
Fixpoint uri_decode (st : utf8_state) (items : list uri_item) : result jsstring :=
  match items with
  | [] => if u_needed st =? 0 then Ok [] else Throw URIError
  | Plain c :: rest =>
      if u_needed st =? 0 then let! r := uri_decode st rest in Ok (c :: r)
      else Throw URIError
  | Escaped b :: rest =>
      match utf8_handler st b with
      | (st', []) => uri_decode st' rest
      | (st', [Some c]) => let! r := uri_decode st' rest in Ok (utf16_of_cp c ++ r)
      | _ => Throw URIError
      end
  end.

(** [decodeURIComponent(s)] *)
Definition decodeURIComponent (s : jsstring) : result jsstring :=
  let! items := uri_items s in uri_decode utf8_start items.

(** [base64Encode] and [base64Decode] of the source. *)
Definition base64Encode (str : jsstring) : result jsstring :=
  let! e := encodeURIComponent str in btoa (unescape e).

Definition base64Decode (str : jsstring) : result jsstring :=
  let! b := atob str in decodeURIComponent (escape b).

(** ** SHA-256 and HMAC, as [crypto.subtle] computes them (FIPS 180-4,
    RFC 2104) on 32-bit words *)

Definition w32 (x : N) : N := N.land x 0xFFFFFFFF.

Definition rotr (n x : N) : N :=
  N.lor (N.shiftr x n) (w32 (N.shiftl x (32 - n))).

Definition Ch (x y z : N) : N :=
  N.lxor (N.land x y) (N.land (N.lnot x 32) z).

Definition Maj (x y z : N) : N :=
  N.lxor (N.lxor (N.land x y) (N.land x z)) (N.land y z).

Definition Sigma0 (x : N) : N := N.lxor (N.lxor (rotr 2 x) (rotr 13 x)) (rotr 22 x).
Definition Sigma1 (x : N) : N := N.lxor (N.lxor (rotr 6 x) (rotr 11 x)) (rotr 25 x).
Definition sigma0 (x : N) : N := N.lxor (N.lxor (rotr 7 x) (rotr 18 x)) (N.shiftr x 3).
Definition sigma1 (x : N) : N := N.lxor (N.lxor (rotr 17 x) (rotr 19 x)) (N.shiftr x 10).

(** The first sixty-four primes. *)
Definition first_primes : list N :=
  [2; 3; 5; 7; 11; 13; 17; 19; 23; 29; 31; 37; 41; 43; 47; 53; 59; 61; 67;
   71; 73; 79; 83; 89; 97; 101; 103; 107; 109; 113; 127; 131; 137; 139; 149;
   151; 157; 163; 167; 173; 179; 181; 191; 193; 197; 199; 211; 223; 227; 229;
   233; 239; 241; 251; 257; 263; 269; 271; 277; 281; 283; 293; 307; 311].

(** The integer cube root, bit by bit from the given bit down. *)
Fixpoint cube_root_from (bit : nat) (n r : N) : N :=
  let r' := r + 2 ^ N.of_nat bit in
  let r := if r' * r' * r' <=? n then r' else r in
  match bit with
  | O => r
  | S bit' => cube_root_from bit' n r
  end.

(** The round constants: the first thirty-two bits of the fractional
    parts of the cube roots of the first sixty-four primes. *)
Definition sha256_K : list N :=
  Eval vm_compute in
    map (fun p => w32 (cube_root_from 40 (p * 2 ^ 96) 0)) first_primes.

(** The initial hash value: the same of the square roots of the first
    eight primes. *)
Definition sha256_H0 : list N :=
  Eval vm_compute in
    map (fun p => w32 (N.sqrt (p * 2 ^ 64))) (firstn 8 first_primes).

(** The message schedule, grown from the sixteen words of a block. *)
Fixpoint sha256_schedule (n : nat) (w : list N) : list N :=
  match n with
  | O => w
  | S n' =>
      let t := List.length w in
      let at_ (i : nat) := nth (t - i) w 0 in
      sha256_schedule n'
        (w ++ [w32 (sigma1 (at_ 2%nat) + at_ 7%nat + sigma0 (at_ 15%nat) + at_ 16%nat)])
  end.

Definition sha256_round (s : list N) (kw : N * N) : list N :=
  match s with
  | [a; b; c; d; e; f; g; h] =>
      let t1 := h + Sigma1 e + Ch e f g + fst kw + snd kw in
      let t2 := Sigma0 a + Maj a b c in
      [w32 (t1 + t2); a; b; c; w32 (d + t1); e; f; g]
  | _ => s
  end.

Definition sha256_block (h : list N) (block : list N) : list N :=
  let w := sha256_schedule 48 block in
  let s := fold_left sha256_round (combine sha256_K w) h in
  map (fun p => w32 (fst p + snd p)) (combine h s).

(** Big-endian words. *)
Fixpoint words_of_bytes (bs : list octet) : list N :=
  match bs with
  | a :: b :: c :: d :: rest =>
      (N.shiftl a 24 + N.shiftl b 16 + N.shiftl c 8 + d) :: words_of_bytes rest
  | _ => []
  end.

Definition bytes_of_word (n : nat) (w : N) : list octet :=
  map (fun i => N.land (N.shiftr w (8 * N.of_nat i)) 0xFF) (rev (seq 0 n)).

Definition sha256_pad (msg : list octet) : list octet :=
  let len := List.length msg in
  let zeros := ((64 - (len + 9) mod 64) mod 64)%nat in
  msg ++ [0x80] ++ repeat 0 zeros ++ bytes_of_word 8 (8 * N.of_nat len).

Fixpoint sha256_blocks (n : nat) (h : list N) (ws : list N) : list N :=
  match n with
  | O => h
  | S n' => sha256_blocks n' (sha256_block h (firstn 16 ws)) (skipn 16 ws)
  end.

Definition sha256 (msg : list octet) : list octet :=
  let ws := words_of_bytes (sha256_pad msg) in
  flat_map (bytes_of_word 4) (sha256_blocks (List.length ws / 16) sha256_H0 ws).

Definition hmac_sha256 (key msg : list octet) : list octet :=
  let k := if (64 <? List.length key)%nat then sha256 key else key in
  let k := k ++ repeat 0 (64 - List.length k) in
  sha256 (map (N.lxor 0x5c) k ++ sha256 (map (N.lxor 0x36) k ++ msg)).

(** [generateHmacSignature]: the key and the data are strings, the result
    the lowercase hexadecimal digest.  [importKey] refuses an empty
    key. *)
Definition generateHmacSignature (key data : jsstring) : result jsstring :=
  match TextEncoder_encode key with
  | [] => Throw DataError
  | k => Ok (hex_of_bytes (hmac_sha256 k (TextEncoder_encode data)))
  end.

(** ** Integers as text *)

Definition is_digit (c : cu) : bool := (48 <=? c) && (c <=? 57).

Fixpoint decimal_digits (fuel : nat) (n : N) (acc : jsstring) : jsstring :=
  match fuel with
  | O => acc
  | S fuel' =>
      let acc' := (48 + n mod 10) :: acc in
      if n / 10 =? 0 then acc' else decimal_digits fuel' (n / 10) acc'
  end.

Definition N_toString (n : N) : jsstring :=
  decimal_digits (S (N.to_nat (N.size n))) n [].

(** [n.toString()] for an integral number (below 1e21 in magnitude, where
    the source's doubles print without an exponent). *)
Definition Z_toString (z : Z) : jsstring :=
  if (z <? 0)%Z then 45 :: N_toString (Z.abs_N z) else N_toString (Z.abs_N z).

(** The longest prefix of digits in the given radix, as a number; [None]
    when there is no digit. *)
Fixpoint parse_digits (radix : N) (s : jsstring) (acc : option N) : option N :=
  match s with
  | [] => acc
  | c :: rest =>
      match hex_value c with
      | Some d =>
          if d <? radix then
            parse_digits radix rest
              (Some (radix * match acc with Some a => a | None => 0 end + d))
          else acc
      | None => acc
      end
  end.

(** [parseInt(s)]; [None] is NaN. *)
Definition parseInt (s : jsstring) : option Z :=
  let s := trimStart s in
  let '(negative, s) :=
    match s with
    | c :: rest => if c =? 45 then (true, rest)
                   else if c =? 43 then (false, rest) else (false, s)
    | [] => (false, s)
    end in
  let magnitude :=
    match s with
    | c :: x :: rest =>
        if (c =? 48) && ((x =? 120) || (x =? 88)) then parse_digits 16 rest None
        else parse_digits 10 s None
    | _ => parse_digits 10 s None
    end in
  match magnitude with
  | Some m => Some (if negative then (- Z.of_N m)%Z else Z.of_N m)
  | None => None
  end.

(** [Math.ceil(n / d)] on natural numbers. *)
Definition ceil_div (n d : N) : N :=
  if n mod d =? 0 then n / d else n / d + 1.

(** ** [generateRequestId] *)

(** Every [x] or [y] of the template takes the next value of
    [Math.random() * 16 | 0]. *)
Fixpoint fill_template (template : jsstring) (random16 : list N) : jsstring :=
  match template with
  | [] => []
  | c :: rest =>
      if (c =? 120) || (c =? 121) then
        let r := hd 0 random16 in
        let v := if c =? 120 then r else N.lor (N.land r 0x3) 0x8 in
        hex_digit false v :: fill_template rest (tl random16)
      else c :: fill_template rest random16
  end.

Definition generateRequestId (random16 : list N) : jsstring :=
  fill_template (lit "xxxxxxxx-xxxx-4xxx-yxxx-xxxxxxxxxxxx") random16.

(** ** [URLSearchParams] *)

(** The application/x-www-form-urlencoded serializer of
    [URLSearchParams.toString]. *)
Definition form_byte (b : octet) : jsstring :=
  if b =? 32 then [43]
  else if is_alnum b || existsb (N.eqb b) [42; 45; 46; 95] then [b]
  else percent b.

Definition form_encode (s : jsstring) : jsstring :=
  flat_map form_byte (TextEncoder_encode s).

Definition URLSearchParams_toString (params : list (jsstring * jsstring)) : jsstring :=
  join (lit "&")
    (map (fun kv => form_encode (fst kv) ++ lit "=" ++ form_encode (snd kv)) params).

(** ** Sorting the signed metadata *)

(** The order of [a.localeCompare(b)], taken as the order of the code
    units: the two agree on the keys that are sorted here, [timestamp],
    [requestId] and [user_id], which differ in their first letter. *)
Fixpoint localeCompare (a b : jsstring) : comparison :=
  match a, b with
  | [], [] => Eq
  | [], _ :: _ => Lt
  | _ :: _, [] => Gt
  | x :: a', y :: b' =>
      match x ?= y with
      | Eq => localeCompare a' b'
      | c => c
      end
  end.

Fixpoint insert_entry {A : Type} (e : jsstring * A) (l : list (jsstring * A))
  : list (jsstring * A) :=
  match l with
  | [] => [e]
  | x :: rest =>
      match localeCompare (fst e) (fst x) with
      | Gt => x :: insert_entry e rest
      | _ => e :: l
      end
  end.

(** [entries.sort(([a], [b]) => a.localeCompare(b))], a stable sort. *)
Definition sort_entries {A : Type} (l : list (jsstring * A)) : list (jsstring * A) :=
  fold_right insert_entry [] l.

(** ** The stream translator of [chatStream] *)

Section Translator.
Context {RT : Runtime}.

(** The text delta of one parsed event, as the two branches of the source
    find it.  The outer [None] is a TypeError (the event is [null]); the
    inner one says that the event carries no delta. *)
Definition delta_of (dataJson : jsval) : option (option jsval) :=
  match get dataJson (lit "data") with
  | None => None
  | Some data =>
      let delta_content :=
        if truthy data then get_opt data (lit "delta_content") else data in
      if truthy delta_content then Some (Some delta_content)
      else
        let choices := get_opt dataJson (lit "choices") in
        if truthy choices then
          let first := match get0 choices with Some x => x | None => VUndefined end in
          let chunk :=
            js_or (get_opt (get_opt first (lit "delta")) (lit "content")) (VStr []) in
          if truthy chunk then Some (Some chunk) else Some None
        else Some None
  end.

(** The body of the [try] block for one payload: the new
    [fullAssistantContent] and what is yielded; [None] when it throws
    (before any assignment). *)
Definition try_payload (full : jsstring) (dataStr : jsstring)
  : option (jsstring * list jsval) :=
  match JSON_parse dataStr with
  | None => None
  | Some dataJson =>
      match delta_of dataJson with
      | None => None
      | Some None => Some (full, [])
      | Some (Some chunk) =>
          match toString chunk with
          | None => None
          | Some s => Some (full ++ s, [chunk])
          end
      end
  end.

(** What one complete line does: [return], or carry on with a new
    [fullAssistantContent] after yielding some chunks. *)
Inductive line_step :=
| LReturn
| LNext (full : jsstring) (out : list jsval).

Definition on_line (full : jsstring) (line : jsstring) : line_step :=
  if startsWith line (lit "data: ") then
    let dataStr := slice_from 6 line in
    if str_eqb dataStr (lit "[DONE]") then LReturn
    else match try_payload full dataStr with
         | Some (full', out) => LNext full' out
         | None => LNext full []
         end
  else LNext full [].

(** [for (const line of lines)]: the final [fullAssistantContent], the
    chunks yielded, and whether the generator returned. *)
Fixpoint for_lines (full : jsstring) (lines : list jsstring)
  : jsstring * list jsval * bool :=
  match lines with
  | [] => (full, [], false)
  | line :: rest =>
      match on_line full line with
      | LReturn => (full, [], true)
      | LNext full' out =>
          let '(full'', out', returned) := for_lines full' rest in
          (full'', out ++ out', returned)
      end
  end.

(** How the upstream body ends: the reader reports [done], or a read
    rejects. *)
Inductive stream_end := Closed | Failed.

(** How the [try] block of the generator is left. *)
Inductive completion := Finished | Returned | Thrown.

(** [while (true)] over the successive results of [reader.read()]. *)
Fixpoint read_loop (decoder : TextDecoder) (buffer full : jsstring)
    (chunks : list (list Byte.byte)) (ending : stream_end)
  : jsstring * list jsval * completion :=
  match chunks with
  | [] =>
      match ending with
      | Closed => (full, [], Finished)
      | Failed => (full, [], Thrown)
      end
  | value :: rest =>
      let (decoder', text) := decode decoder value in
      let (last, lines) := pop (split_on NL (buffer ++ text)) in
      let buffer' := match last with
                     | Some (c :: l) => c :: l
                     | _ => []
                     end in
      let '(full', out, returned) := for_lines full lines in
      if returned then (full', out, Returned)
      else
        let '(full'', out', c) := read_loop decoder' buffer' full' rest ending in
        (full'', out ++ out', c)
  end.

End Translator.

(** ** The data of the worker *)

Record Message := {
  role : jsstring;
  content : jsstring
}.

(** What [fetch] gives: a rejected promise, or a response with its [ok]
    flag, its status and its body. *)
Inductive fetched (Body : Type) : Type :=
| NetworkError
| Response (ok : bool) (status : N) (body : Body).

Arguments NetworkError {Body}.
Arguments Response {Body} ok status body.

Section Worker.
Context {RT : Runtime}.

(** [ZChatSession].  The token and the user id are whatever the upstream
    JSON held under [token] and [id]. *)
Record ZChatSession := {
  token : jsval;
  user_id : jsval;
  chat_id : jsstring;
  messages : list Message;
  model : jsstring;
  use_web_search : bool;
  use_thinking : bool;
  use_image_gen : bool;
  use_preview_mode : bool;
  user_name : jsstring;
  salt_key : jsstring;
  fe_version : jsstring
}.

Definition set_token (s : ZChatSession) (t : jsval) : ZChatSession :=
  {| token := t; user_id := user_id s; chat_id := chat_id s;
     messages := messages s; model := model s;
     use_web_search := use_web_search s; use_thinking := use_thinking s;
     use_image_gen := use_image_gen s; use_preview_mode := use_preview_mode s;
     user_name := user_name s; salt_key := salt_key s;
     fe_version := fe_version s |}.

Definition set_user_id (s : ZChatSession) (u : jsval) : ZChatSession :=
  {| token := token s; user_id := u; chat_id := chat_id s;
     messages := messages s; model := model s;
     use_web_search := use_web_search s; use_thinking := use_thinking s;
     use_image_gen := use_image_gen s; use_preview_mode := use_preview_mode s;
     user_name := user_name s; salt_key := salt_key s;
     fe_version := fe_version s |}.

Definition set_user_name (s : ZChatSession) (n : jsstring) : ZChatSession :=
  {| token := token s; user_id := user_id s; chat_id := chat_id s;
     messages := messages s; model := model s;
     use_web_search := use_web_search s; use_thinking := use_thinking s;
     use_image_gen := use_image_gen s; use_preview_mode := use_preview_mode s;
     user_name := n; salt_key := salt_key s;
     fe_version := fe_version s |}.

(** [session.messages.push(m)] *)
Definition push_message (s : ZChatSession) (m : Message) : ZChatSession :=
  {| token := token s; user_id := user_id s; chat_id := chat_id s;
     messages := messages s ++ [m]; model := model s;
     use_web_search := use_web_search s; use_thinking := use_thinking s;
     use_image_gen := use_image_gen s; use_preview_mode := use_preview_mode s;
     user_name := user_name s; salt_key := salt_key s;
     fe_version := fe_version s |}.

(** The assignments of the completions handler to a fresh session. *)
Definition configure (s : ZChatSession) (m : jsstring) (web thinking : bool)
  : ZChatSession :=
  {| token := token s; user_id := user_id s; chat_id := chat_id s;
     messages := messages s; model := m;
     use_web_search := web; use_thinking := thinking;
     use_image_gen := use_image_gen s; use_preview_mode := use_preview_mode s;
     user_name := user_name s; salt_key := salt_key s;
     fe_version := fe_version s |}.

(** The upstream body as the reader delivers it: the chunks, then the end
    of the stream or a failed read. *)
Record upstream_body := {
  chunks : list (list Byte.byte);
  ending : stream_end
}.

(** Everything one request takes from outside: the clock, the random
    numbers and the upstream's answers. *)
Record World := {
  (** [Date.now()] as [generateZaSignature] reads it *)
  now_signing : Z;
  (** [Date.now()] as the completions handler reads it *)
  now_created : Z;
  (** [Math.random() * 16 | 0], for the three request ids *)
  random_chat_id : list N;
  random_request_id : list N;
  random_response_id : list N;
  (** the landing page; no body when [response.text()] rejects *)
  fetch_landing : fetched (option jsstring);
  (** [/api/v1/auths/] and [/api/v1/auths/guest]; no body when
      [response.json()] rejects *)
  fetch_auths : fetched (option jsval);
  fetch_guest : fetched (option jsval);
  (** the chat call; no body when [response.body] is null *)
  fetch_chat : fetched (option upstream_body)
}.

(** ** [scrapeConfig] *)

Fixpoint take_digits (s : jsstring) : jsstring * jsstring :=
  match s with
  | c :: rest =>
      if is_digit c then let (d, r) := take_digits rest in (c :: d, r)
      else ([], s)
  | [] => ([], [])
  end.

(** A match of [/prod-fe-\d+\.\d+\.\d+/] at the start of the text. *)
Definition match_version_here (s : jsstring) : option jsstring :=
  if startsWith s (lit "prod-fe-") then
    match take_digits (skipn 8 s) with
    | ((_ :: _) as d1, dot1 :: r1) =>
        match take_digits r1 with
        | ((_ :: _) as d2, dot2 :: r2) =>
            match take_digits r2 with
            | ((_ :: _) as d3, _) =>
                if (dot1 =? 46) && (dot2 =? 46) then
                  Some (lit "prod-fe-" ++ d1 ++ [46] ++ d2 ++ [46] ++ d3)
                else None
            | _ => None
            end
        | _ => None
        end
    | _ => None
    end
  else None.

(** [html.match(/prod-fe-\d+\.\d+\.\d+/)]: the leftmost match. *)
Fixpoint match_version (html : jsstring) : option jsstring :=
  match match_version_here html with
  | Some v => Some v
  | None =>
      match html with
      | [] => None
      | _ :: rest => match_version rest
      end
  end.

Definition scrapeConfig (w : World) : jsstring * jsstring :=
  let salt_key := lit "key-@@@@)))()((9))-xxxx&&&%%%%%" in
  let fe_version := lit "prod-fe-1.0.185" in
  match fetch_landing w with
  | Response true _ (Some html) =>
      match match_version html with
      | Some v => (salt_key, v)
      | None => (salt_key, fe_version)
      end
  | _ => (salt_key, fe_version)
  end.

(** ** [generateZaSignature] *)

Record ZaSignature := {
  signature : jsstring;
  timestamp : jsstring;
  urlParams : jsstring
}.

(** ToString where the source needs a string. *)
Definition to_string (v : jsval) : result jsstring :=
  match toString v with
  | Some s => Ok s
  | None => Throw TypeError
  end.

(** [Math.floor(parseInt(timestamp) / 300000)] and its [toString()];
    [None] is NaN.  A time value is an integer of magnitude at most
    8.64e15; on those the division of doubles followed by [Math.floor]
    gives the floor of the exact quotient, which is what [Z] computes. *)
Definition bucket_of (timestamp : jsstring) : option Z :=
  match parseInt timestamp with
  | Some t => Some (t / 300000)%Z
  | None => None
  end.

Definition bucket_toString (bucket : option Z) : jsstring :=
  match bucket with
  | Some b => Z_toString b
  | None => lit "NaN"
  end.

Fixpoint entries_toString (entries : list (jsstring * jsval))
  : result (list (jsstring * jsstring)) :=
  match entries with
  | [] => Ok []
  | (k, v) :: rest =>
      let! s := to_string v in
      let! r := entries_toString rest in
      Ok ((k, s) :: r)
  end.

(** [generateUrlParams]: each value through [String(value)], then the
    serializer. *)
Definition generateUrlParams (params : list (jsstring * jsval)) : result jsstring :=
  let! strings := entries_toString params in
  Ok (URLSearchParams_toString strings).

Definition generateZaSignature (w : World) (prompt : jsstring)
    (token user_id : jsval) (salt_key : jsstring) : result ZaSignature :=
  let timestamp := Z_toString (now_signing w) in
  let request_id := generateRequestId (random_request_id w) in
  let bucket := bucket_of timestamp in
  let! w_key := generateHmacSignature salt_key (bucket_toString bucket) in
  let payloadDict :=
    [(lit "timestamp", VStr timestamp);
     (lit "requestId", VStr request_id);
     (lit "user_id", user_id)] in
  let sortedItems := sort_entries payloadDict in
  let! sortedStrings := entries_toString sortedItems in
  let sortedPayload :=
    join (lit ",") (map (fun kv => fst kv ++ lit "," ++ snd kv) sortedStrings) in
  let! promptB64 := base64Encode (trim prompt) in
  let dataToSign := sortedPayload ++ lit "|" ++ promptB64 ++ lit "|" ++ timestamp in
  let! signature := generateHmacSignature w_key dataToSign in
  let browserInfo :=
    [(lit "version", VStr (lit "0.0.1"));
     (lit "platform", VStr (lit "web"));
     (lit "token", token);
     (lit "user_agent",
      VStr (lit "Mozilla/5.0 (Windows NT 10.0; Win64; x64) Chrome/120.0.0.0"));
     (lit "language", VStr (lit "en-US"));
     (lit "screen_resolution", VStr (lit "1920x1080"));
     (lit "viewport_size", VStr (lit "1920x1080"));
     (lit "timezone", VStr (lit "Europe/Paris"));
     (lit "timezone_offset", VStr (lit "-60"))] in
  let params := payloadDict ++ browserInfo in
  let! encoded := generateUrlParams params in
  let urlParams := encoded ++ lit "&signature_timestamp=" ++ timestamp in
  Ok {| signature := signature; timestamp := timestamp; urlParams := urlParams |}.

(** ** [initializeZChat] *)

(** [data.token] or else the empty string, on the body of an auth
    response. *)
Definition token_of (body : option jsval) : result jsval :=
  match body with
  | None => Throw SyntaxError
  | Some data =>
      match get data (lit "token") with
      | Some t => Ok (js_or t (VStr []))
      | None => Throw TypeError
      end
  end.

(** The guest call; the token stays empty when the response is not ok. *)
Definition guest_token (w : World) : result jsval :=
  match fetch_guest w with
  | NetworkError => Throw FetchFailed
  | Response ok _ body => if ok then token_of body else Ok (VStr [])
  end.

Definition obtain_token (w : World) : result jsval :=
  match fetch_auths w with
  | NetworkError => Throw FetchFailed
  | Response ok _ body =>
      if negb ok then guest_token w
      else
        let! t := token_of body in
        if truthy t then Ok t else guest_token w
  end.

(** The inner [try] block, which reads the claims of the token.  The
    session comes back as far as the assignments got, with the exception
    that stopped them, if any: [split] on a token that is no string, the
    decoding, the parsing, a property of [null], [split] on an email that
    is no string, [substring] (in the log line) on an id that is no
    string. *)
Definition decode_claims (session : ZChatSession) : ZChatSession * option exn :=
  match token session with
  | VStr t =>
      let tokenParts := split_on 46 t in
      if (List.length tokenParts =? 3)%nat then
        match base64Decode (nth 1 tokenParts [] ++ lit "==") with
        | Throw e => (session, Some e)
        | Ok text =>
            match JSON_parse text with
            | None => (session, Some SyntaxError)
            | Some payload =>
                match get payload (lit "id"), get payload (lit "email") with
                | Some id, Some email =>
                    let session1 := set_user_id session (js_or id (VStr [])) in
                    match js_or email (VStr (lit "Guest")) with
                    | VStr e =>
                        let session2 :=
                          set_user_name session1 (hd [] (split_on 64 e)) in
                        match user_id session2 with
                        | VStr _ => (session2, None)
                        | _ => (session2, Some TypeError)
                        end
                    | _ => (session1, Some TypeError)
                    end
                | _, _ => (session, Some TypeError)
                end
            end
        end
      else (session, None)
  | _ => (session, Some TypeError)
  end.

Definition initializeZChat (w : World) : ZChatSession :=
  let (salt_key, fe_version) := scrapeConfig w in
  let session :=
    {| token := VStr []; user_id := VStr [];
       chat_id := generateRequestId (random_chat_id w);
       messages := []; model := lit "glm-4.7";
       use_web_search := false; use_thinking := false;
       use_image_gen := false; use_preview_mode := false;
       user_name := lit "Guest"; salt_key := salt_key;
       fe_version := fe_version |} in
  match obtain_token w with
  | Throw _ => session
  | Ok t =>
      let session := set_token session t in
      if truthy t then fst (decode_claims session) else session
  end.

(** ** [chatStream] *)

(** The stream translator: the reader, the decoder, the two accumulators
    and the read loop of [chatStream], on the body of the response. *)
Definition stream_translator (body : upstream_body)
  : jsstring * list jsval * completion :=
  read_loop new_TextDecoder [] [] (chunks body) (ending body).

(** What a consumer of the generator sees: the chunks yielded, how the
    generator ended, and the session it leaves. *)
Record stream_result := {
  yields : list jsval;
  outcome : completion;
  session_after : ZChatSession
}.

(** [chatStream], run to its end by a consumer that takes every chunk.
    Between the signature and the read loop the source builds the URL, the
    headers and the payload; none of that can throw once the signature
    exists, and the answer of the upstream is a field of the world.  The
    last match is the [finally] block. *)
Definition chatStream (w : World) (session : ZChatSession) (prompt : jsstring)
  : stream_result :=
  let session := push_message session {| role := lit "user"; content := prompt |} in
  let throws :=
    {| yields := []; outcome := Thrown; session_after := session |} in
  match generateZaSignature w prompt (token session) (user_id session)
          (salt_key session) with
  | Throw _ => throws
  | Ok _ =>
      match fetch_chat w with
      | NetworkError => throws
      | Response ok _ body =>
          if negb ok then throws
          else
            match body with
            | None => throws
            | Some b =>
                let '(fullAssistantContent, out, c) := stream_translator b in
                {| yields := out;
                   outcome := c;
                   session_after :=
                     match fullAssistantContent with
                     | [] => session
                     | _ :: _ =>
                         push_message session
                           {| role := lit "assistant";
                              content := fullAssistantContent |}
                     end |}
            end
      end
  end.

(** ** The middleware and the completions endpoint *)

Record Request := {
  path : jsstring;
  (** [c.req.header('Authorization')] *)
  authorization : option jsstring
}.

Inductive middleware_result :=
| Next
| Rejected (status : N) (message : jsstring).

(** [validateApiKey]; [API_KEY] is [c.env.API_KEY]. *)
Definition validateApiKey (API_KEY : option jsstring) (req : Request)
  : middleware_result :=
  if str_eqb (path req) (lit "/") then Next
  else
    match authorization req with
    | None | Some [] => Rejected 401 (lit "Missing Authorization header")
    | Some authHeader =>
        if negb (startsWith authHeader (lit "Bearer ")) then
          Rejected 401
            (lit "Invalid Authorization header format. Expected: Bearer sk-...")
        else
          let apiKey := trim (slice_from 7 authHeader) in
          let mismatch :=
            match API_KEY with
            | Some ((_ :: _) as key) => negb (str_eqb apiKey key)
            | _ => false
            end in
          if mismatch then Rejected 401 (lit "Invalid API key")
          else if negb (startsWith apiKey (lit "sk-")) then
            Rejected 401 (lit "Invalid API key format. Expected: sk-...")
          else Next
    end.

Record ChatCompletionRequest := {
  req_model : option jsstring;
  req_messages : list Message;
  req_stream : option bool
}.

Record Choice := {
  index : N;
  message : Message;
  finish_reason : jsstring
}.

Record Usage := {
  prompt_tokens : N;
  completion_tokens : N;
  total_tokens : N
}.

Record ChatCompletionResponse := {
  id : jsstring;
  object : jsstring;
  created : Z;
  response_model : jsstring;
  choices : list Choice;
  usage : Usage
}.

(** A frame of the streaming branch, before [JSON.stringify]. *)
Inductive frame :=
| DeltaFrame (chunk : jsval)
| FinishFrame
| DoneFrame.

Inductive http_response :=
| Json (status : N) (body : ChatCompletionResponse)
| JsonError (status : N)
| TextStream (frames : list frame).

(** [s.includes(sub)] *)
Fixpoint includes (s sub : jsstring) : bool :=
  startsWith s sub ||
  match s with
  | [] => false
  | _ :: rest => includes rest sub
  end.

(** [chunks.join('')] on the yielded chunks. *)
Fixpoint join_chunks (l : list jsval) : result jsstring :=
  match l with
  | [] => Ok []
  | v :: rest =>
      let! s := match v with
                | VUndefined | VNull => Ok []
                | _ => to_string v
                end in
      let! r := join_chunks rest in
      Ok (s ++ r)
  end.

(** The session of a completions request: a fresh one, with the model of
    the request and the flags that its messages switch on. *)
Definition completions_session (w : World) (requestBody : ChatCompletionRequest)
  : ZChatSession :=
  let model := match req_model requestBody with
               | Some m => m
               | None => lit "glm-4.7"
               end in
  let messages := req_messages requestBody in
  let session := initializeZChat w in
  let mentions (word : jsstring) :=
    existsb (fun msg => includes (toLowerCase (content msg)) word) messages in
  configure session model (mentions (lit "search")) (mentions (lit "think")).

(** [app.post('/v1/chat/completions', ...)], on a parsed request body. *)
Definition chat_completions (w : World) (requestBody : ChatCompletionRequest)
  : http_response :=
  let model := match req_model requestBody with
               | Some m => m
               | None => lit "glm-4.7"
               end in
  let messages := req_messages requestBody in
  let stream := match req_stream requestBody with
                | Some b => b
                | None => false
                end in
  match last (map Some messages) None with
  | None => JsonError 500
  | Some lastMessage =>
      let prompt := content lastMessage in
      let session := completions_session w requestBody in
      let r := chatStream w session prompt in
      if stream then
        TextStream
          (map DeltaFrame (yields r) ++
           match outcome r with
           | Thrown => []
           | _ => [FinishFrame; DoneFrame]
           end)
      else
        match outcome r, join_chunks (yields r) with
        | Thrown, _ | _, Throw _ => JsonError 500
        | _, Ok fullContent =>
            let promptTokens :=
              fold_left (fun sum msg => sum + ceil_div (str_length (content msg)) 4)
                messages 0 in
            let completionTokens := ceil_div (str_length fullContent) 4 in
            Json 200
              {| id := lit "chatcmpl-" ++
                       filter (fun c => negb (c =? 45))
                         (generateRequestId (random_response_id w));
                 object := lit "chat.completion";
                 created := (now_created w / 1000)%Z;
                 response_model := model;
                 choices :=
                   [{| index := 0;
                       message := {| role := lit "assistant";
                                     content := fullContent |};
                       finish_reason := lit "stop" |}];
                 usage := {| prompt_tokens := promptTokens;
                             completion_tokens := completionTokens;
                             total_tokens := promptTokens + completionTokens |} |}
        end
  end.

End Worker.

(** ** Vocabulary of the statements *)

(** The text that the decoder makes of the whole upstream body. *)
Definition decoded (cs : list (list Byte.byte)) : jsstring :=
  snd (decode new_TextDecoder (List.concat cs)).

(** The lines of a text that a line feed ends, and what follows the last
    line feed. *)
Definition complete_lines (text : jsstring) : list jsstring :=
  removelast (split_on NL text).

Definition residue (text : jsstring) : jsstring :=
  last (split_on NL text) [].

(** A line holds no line feed. *)
Definition is_line (l : jsstring) : Prop := ~ In NL l.

(** Lines, each with its line feed. *)
Definition unlines (ls : list jsstring) : jsstring :=
  flat_map (fun l => l ++ [NL]) ls.

(** The text up to the first separator. *)
Fixpoint take_until (sep : cu) (s : jsstring) : jsstring :=
  match s with
  | [] => []
  | c :: rest => if c =? sep then [] else c :: take_until sep rest
  end.

(** How the generator ends once the lines are exhausted or [return] was
    reached. *)
Definition ended {RT : Runtime} (e : stream_end) (r : jsstring * list jsval * bool)
  : jsstring * list jsval * completion :=
  let '(full, out, returned) := r in
  (full, out,
   if returned then Returned
   else match e with Closed => Finished | Failed => Thrown end).

(** The canonical signing string, [sortedMetadata|base64Prompt|timestamp],
    with the metadata in the order of their keys. *)
Definition canonical_string (timestamp request_id user_id promptB64 : jsstring)
  : jsstring :=
  lit "requestId," ++ request_id ++ lit ",timestamp," ++ timestamp
  ++ lit ",user_id," ++ user_id ++ lit "|" ++ promptB64 ++ lit "|" ++ timestamp.

(** The digest that keys a five-minute window:
    HMAC-SHA256(sharedSecret, stringify(floor(timestamp / 300000))). *)
Definition bucket_digest (now : Z) (secret : jsstring) : list octet :=
  hmac_sha256 (TextEncoder_encode secret)
    (TextEncoder_encode (Z_toString (now / 300000))).

(** The signature in the words of the specification: HMAC-SHA256 of the
    canonical string under the bucket key, hex-encoded, the bucket key
    being the digest above. *)
Definition signature_keyed_by_digest (now : Z)
    (request_id user_id promptB64 secret : jsstring) : jsstring :=
  hex_of_bytes
    (hmac_sha256 (bucket_digest now secret)
       (TextEncoder_encode
          (canonical_string (Z_toString now) request_id user_id promptB64))).

(** The same, the bucket key being the hexadecimal text of the digest, as
    a string. *)
Definition signature_keyed_by_hex (now : Z)
    (request_id user_id promptB64 secret : jsstring) : jsstring :=
  hex_of_bytes
    (hmac_sha256 (TextEncoder_encode (hex_of_bytes (bucket_digest now secret)))
       (TextEncoder_encode
          (canonical_string (Z_toString now) request_id user_id promptB64))).

(** The same world, except that the chat call answers 200 with the given
    body. *)
Definition answering {RT : Runtime} (w : World) (body : upstream_body) : World :=
  {| now_signing := now_signing w; now_created := now_created w;
     random_chat_id := random_chat_id w;
     random_request_id := random_request_id w;
     random_response_id := random_response_id w;
     fetch_landing := fetch_landing w; fetch_auths := fetch_auths w;
     fetch_guest := fetch_guest w;
     fetch_chat := Response true 200 (Some body) |}.

(** ** A runtime to run the worker on examples

    Numbers are integers and [JSON.parse] reads the JSON texts that have
    no fraction and no exponent (it refuses the others); on those texts,
    and on integers that a double holds exactly, it answers as the
    JavaScript builtin does.  [toLowerCase] folds the ASCII letters. *)

Module Basic.

Definition bval := value Z.

Fixpoint skip_ws (s : jsstring) : jsstring :=
  match s with
  | c :: rest =>
      if (c =? 32) || (c =? 9) || (c =? 10) || (c =? 13) then skip_ws rest else s
  | [] => []
  end.

Definition simple_escape (e : cu) : option cu :=
  if (e =? 34) || (e =? 92) || (e =? 47) then Some e
  else if e =? 98 then Some 8
  else if e =? 102 then Some 12
  else if e =? 110 then Some 10
  else if e =? 114 then Some 13
  else if e =? 116 then Some 9
  else None.

Definition cons_fst (c : cu) (p : option (jsstring * jsstring))
  : option (jsstring * jsstring) :=
  match p with
  | Some (str, rest) => Some (c :: str, rest)
  | None => None
  end.

(** A string after its opening quote: its code units and what follows the
    closing quote. *)
Fixpoint parse_string_body (s : jsstring) : option (jsstring * jsstring) :=
  match s with
  | [] => None
  | c :: r =>
      if c =? 34 then Some ([], r)
      else if c <? 32 then None
      else if c =? 92 then
        match r with
        | e :: r' =>
            if e =? 117 then
              match r' with
              | a :: b :: c' :: d :: r'' =>
                  match hex2 a b, hex2 c' d with
                  | Some x, Some y => cons_fst (256 * x + y) (parse_string_body r'')
                  | _, _ => None
                  end
              | _ => None
              end
            else
              match simple_escape e with
              | Some ch => cons_fst ch (parse_string_body r')
              | None => None
              end
        | [] => None
        end
      else cons_fst c (parse_string_body r)
  end.

Definition parse_number (s : jsstring) : option (Z * jsstring) :=
  let '(negative, s1) :=
    match s with
    | c :: r => if c =? 45 then (true, r) else (false, s)
    | [] => (false, s)
    end in
  let (ds, rest) := take_digits s1 in
  let integral :=
    match rest with
    | c :: _ => negb ((c =? 46) || (c =? 101) || (c =? 69))
    | [] => true
    end in
  let leading_zero :=
    match ds with
    | d :: _ :: _ => d =? 48
    | _ => false
    end in
  match parse_digits 10 ds None with
  | Some m =>
      if integral && negb leading_zero then
        Some (if negative then (- Z.of_N m)%Z else Z.of_N m, rest)
      else None
  | None => None
  end.

(** A later member of the same name replaces the earlier one. *)
Fixpoint set_field (k : jsstring) (v : bval) (fields : list (jsstring * bval))
  : list (jsstring * bval) :=
  match fields with
  | [] => [(k, v)]
  | (k', v') :: rest =>
      if str_eqb k k' then (k, v) :: rest else (k', v') :: set_field k v rest
  end.

Fixpoint parse_value (fuel : nat) (s : jsstring) : option (bval * jsstring) :=
  match fuel with
  | O => None
  | S fuel' =>
      match skip_ws s with
      | [] => None
      | c :: r =>
          if c =? 123 then
            match skip_ws r with
            | c2 :: r2 =>
                if c2 =? 125 then Some (VObj [], r2)
                else parse_members fuel' r []
            | [] => None
            end
          else if c =? 91 then
            match skip_ws r with
            | c2 :: r2 =>
                if c2 =? 93 then Some (VArr [], r2)
                else parse_elements fuel' r []
            | [] => None
            end
          else if c =? 34 then
            match parse_string_body r with
            | Some (str, rest) => Some (VStr str, rest)
            | None => None
            end
          else if startsWith (c :: r) (lit "true") then
            Some (VBool true, skipn 4 (c :: r))
          else if startsWith (c :: r) (lit "false") then
            Some (VBool false, skipn 5 (c :: r))
          else if startsWith (c :: r) (lit "null") then
            Some (VNull, skipn 4 (c :: r))
          else
            match parse_number (c :: r) with
            | Some (z, rest) => Some (VNum z, rest)
            | None => None
            end
      end
  end

with parse_members (fuel : nat) (s : jsstring) (acc : list (jsstring * bval))
  : option (bval * jsstring) :=
  match fuel with
  | O => None
  | S fuel' =>
      match skip_ws s with
      | q :: r =>
          if q =? 34 then
            match parse_string_body r with
            | Some (k, r1) =>
                match skip_ws r1 with
                | colon :: r2 =>
                    if colon =? 58 then
                      match parse_value fuel' r2 with
                      | Some (v, r3) =>
                          let acc' := set_field k v acc in
                          match skip_ws r3 with
                          | c :: r4 =>
                              if c =? 44 then parse_members fuel' r4 acc'
                              else if c =? 125 then Some (VObj acc', r4)
                              else None
                          | [] => None
                          end
                      | None => None
                      end
                    else None
                | [] => None
                end
            | None => None
            end
          else None
      | [] => None
      end
  end

with parse_elements (fuel : nat) (s : jsstring) (acc : list bval)
  : option (bval * jsstring) :=
  match fuel with
  | O => None
  | S fuel' =>
      match parse_value fuel' s with
      | Some (v, r1) =>
          match skip_ws r1 with
          | c :: r2 =>
              if c =? 44 then parse_elements fuel' r2 (acc ++ [v])
              else if c =? 93 then Some (VArr (acc ++ [v]), r2)
              else None
          | [] => None
          end
      | None => None
      end
  end.

Definition parse (s : jsstring) : option bval :=
  match parse_value (S (List.length s)) s with
  | Some (v, rest) =>
      match skip_ws rest with
      | [] => Some v
      | _ :: _ => None
      end
  | None => None
  end.

Definition lower (s : jsstring) : jsstring :=
  map (fun c => if (65 <=? c) && (c <=? 90) then c + 32 else c) s.

#[export] Instance runtime : Runtime := {|
  Number := Z;
  Number_truthy := fun z => negb (z =? 0)%Z;
  Number_toString := Z_toString;
  JSON_parse := parse;
  toLowerCase := lower
|}.

(** The bytes of an ASCII text, as an upstream chunk. *)
Definition bytes (s : string) : list Byte.byte :=
  map byte_of_ascii (list_ascii_of_string s).

(** A text in which every apostrophe stands for a double quote. *)
Definition quoted (s : string) : jsstring :=
  map (fun c => if c =? 39 then dquote else c) (lit s).

Definition quoted_bytes (s : string) : list Byte.byte :=
  map (fun b => if Byte.eqb b Byte.x27 then Byte.x22 else b) (bytes s).

(** One upstream line with its line feed. *)
Definition line (s : string) : list Byte.byte := quoted_bytes s ++ [Byte.x0a].

End Basic.

(** ** Example worlds *)

Module Examples.
Import Basic.

(** An upstream stream in two chunks, cut inside a line: two deltas, the
    terminator and one more event; the lines before its terminator and the
    text after it. *)
Definition upstream_chunks : list (list Byte.byte) :=
  [line "data: {'data':{'delta_content':'Hi'}}" ++ quoted_bytes "da";
   line "ta: {'choices':[{'delta':{'content':' there'}}]}" ++
   line "data: [DONE]" ++
   line "data: {'data':{'delta_content':'never'}}"].

Definition lines_before_done : list jsstring :=
  [quoted "data: {'data':{'delta_content':'Hi'}}";
   quoted "data: {'choices':[{'delta':{'content':' there'}}]}"].

Definition text_after_done : jsstring :=
  quoted "data: {'data':{'delta_content':'never'}}" ++ [NL].

(** A stream with an event cut short between two good ones, and the same
    stream without it. *)
Definition cut_payload : jsstring := quoted "{'data':{'delta_con".

Definition chunks_with_cut_event : list (list Byte.byte) :=
  [line "data: {'data':{'delta_content':'Hi'}}";
   line "data: {'data':{'delta_con";
   line "data: {'data':{'delta_content':' there'}}"].

Definition chunks_without_cut_event : list (list Byte.byte) :=
  [line "data: {'data':{'delta_content':'Hi'}}";
   line "data: {'data':{'delta_content':' there'}}"].

(** A stream that closes before the line feed of its last event, and the
    stream that closes before that event. *)
Definition chunks_unterminated : list (list Byte.byte) :=
  [line "data: {'data':{'delta_content':'Hi'}}";
   quoted_bytes "data: {'data':{'delta_content':' there'}}"].

Definition chunks_terminated : list (list Byte.byte) :=
  [line "data: {'data':{'delta_content':'Hi'}}"].

(** A stream that holds the terminator and nothing else. *)
Definition only_done : upstream_body :=
  {| chunks := [line "data: [DONE]"]; ending := Closed |}.

(** An upstream that signs a guest in with a token whose middle segment
    is the base64 of [{'id':'u1','email':'bob@x.com'}] (written here with
    apostrophes for its double quotes) without padding, and
    that streams the chunks above. *)
Definition world : World :=
  {| now_signing := 1762138800123;
     now_created := 1762138801999;
     random_chat_id := [];
     random_request_id := [1; 2; 3];
     random_response_id := [4; 5];
     fetch_landing := Response true 200 (Some (lit "<script src=/prod-fe-1.0.200/a.js>"));
     fetch_auths := Response false 401 None;
     fetch_guest :=
       Response true 200
         (parse (quoted
            "{'token':'aaa.eyJpZCI6InUxIiwiZW1haWwiOiJib2JAeC5jb20ifQ.ccc'}"));
     fetch_chat :=
       Response true 200
         (Some {| chunks := upstream_chunks; ending := Closed |}) |}.

(** The same, the token's middle segment being the base64 of
    [{'id':'123'}], sixteen characters long. *)
Definition world_undecodable : World :=
  {| now_signing := now_signing world;
     now_created := now_created world;
     random_chat_id := [];
     random_request_id := [];
     random_response_id := [];
     fetch_landing := fetch_landing world;
     fetch_auths :=
       Response true 200
         (parse (quoted "{'token':'h.eyJpZCI6IjEyMyJ9.s'}"));
     fetch_guest := NetworkError;
     fetch_chat := fetch_chat world |}.

(** A session as [initializeZChat] leaves it for a guest. *)
Definition session : ZChatSession := initializeZChat world.

Definition hello : ChatCompletionRequest :=
  {| req_model := None;
     req_messages := [{| role := lit "user"; content := lit "Hello" |}];
     req_stream := Some false |}.

End Examples.

(** ** The legacy endpoint *)

Section Legacy.
Context {RT : Runtime}.





End Legacy.

(** ** More vocabulary *)

(** A lowercase hexadecimal digit. *)
Definition is_lower_hex (c : cu) : bool :=
  is_digit c || ((97 <=? c) && (c <=? 102)).

(** A string of sixteen-bit code units in which every surrogate is half of
    a pair. *)
Definition well_formed (s : jsstring) : Prop :=
  Forall (fun c => c < 65536) s /\ ~ In None (code_points s).

(** The ASCII white space that [atob] drops. *)
Definition without_whitespace (s : jsstring) : jsstring :=
  filter (fun c => negb (is_ascii_whitespace c)) s.

(** [a] is a prefix of [b]. *)
Definition prefix_of {A : Type} (a b : list A) : Prop := exists more, b = a ++ more.

(** [a] occurs in [b]. *)
Definition occurs_in {A : Type} (a b : list A) : Prop :=
  exists before after, b = before ++ a ++ after.

(** What is left of a result under a function, an exception staying as it
    is. *)
Definition map_result {A B : Type} (f : A -> B) (r : result A) : result B :=
  match r with
  | Ok a => Ok (f a)
  | Throw e => Throw e
  end.

(** The characters that the form serializer leaves as they are. *)
Definition form_safe (c : cu) : bool :=
  is_alnum c || existsb (N.eqb c) [42; 45; 46; 95].

(** A code point that UTF-8 and UTF-16 can carry. *)
Definition scalar (c : N) : Prop := c < 0x110000 /\ ~ (0xD800 <= c <= 0xDFFF).

(** What [encodeURIComponent] writes for one code point. *)
Definition uri_encoded (c : N) : jsstring :=
  if uri_unreserved c then [c] else flat_map percent (utf8_of_cp c).

(** What [escape] makes of an octet, as [decodeURIComponent] reads it. *)
Definition item_of (b : octet) : uri_item :=
  if escape_unreserved b then Plain b else Escaped b.

(** ** More examples *)

Module FurtherExamples.
Import Basic Examples.

(** The upstream of [world], answering the chat call with a 503. *)
Definition world_unavailable : World :=
  {| now_signing := now_signing world;
     now_created := now_created world;
     random_chat_id := random_chat_id world;
     random_request_id := random_request_id world;
     random_response_id := random_response_id world;
     fetch_landing := fetch_landing world;
     fetch_auths := fetch_auths world;
     fetch_guest := fetch_guest world;
     fetch_chat := Response false 503 None |}.


(** A stream with a comment line between two events. *)
Definition chunks_with_comment : list (list Byte.byte) :=
  [line "data: {'data':{'delta_content':'Hi'}}";
   line ": keep-alive";
   line "data: {'data':{'delta_content':' there'}}"].

(** A text with an accented letter, a euro sign and a character outside
    the basic plane. *)
Definition accented : jsstring := [0x48; 0xE9; 0x20AC; 0xD83D; 0xDE00].

End FurtherExamples.

(** * Facts *)

(** ** Strings *)

Lemma str_eqb_eq (a b : jsstring) : str_eqb a b = true <-> a = b.
Proof.
  revert b; induction a as [|x a IH]; intros [|y b]; simpl; split;
    try congruence; try reflexivity.
  - rewrite andb_true_iff, N.eqb_eq, IH. intros [-> ->]; reflexivity.
  - intros H; injection H as -> ->. now rewrite N.eqb_refl, (proj2 (IH b)).
Qed.

Lemma str_eqb_refl (a : jsstring) : str_eqb a a = true.
Proof. now apply str_eqb_eq. Qed.

Lemma startsWith_app (p s : jsstring) : startsWith (p ++ s) p = true.
Proof.
  induction p as [|x p IH]; simpl; [now destruct s|].
  now rewrite N.eqb_refl, IH.
Qed.

Lemma split_on_nonempty (sep : cu) (s : jsstring) : split_on sep s <> [].
Proof.
  destruct s as [|c s]; simpl; [discriminate|].
  destruct (c =? sep); [discriminate|].
  destruct (split_on sep s); discriminate.
Qed.

(** Splitting a text in two pieces: the lines of the first piece except
    its last, then the split of that last line followed by the second
    piece. *)
Lemma split_on_app (sep : cu) (s t : jsstring) :
  split_on sep (s ++ t) =
  removelast (split_on sep s) ++ split_on sep (last (split_on sep s) [] ++ t).
Proof.
  induction s as [|c s IH]; [reflexivity|].
  cbn [app split_on].
  pose proof (split_on_nonempty sep s) as Hne.
  destruct (c =? sep) eqn:Hc.
  - rewrite IH. destruct (split_on sep s) as [|l ls]; [congruence|]. reflexivity.
  - rewrite IH. destruct (split_on sep s) as [|l ls]; [congruence|].
    destruct ls as [|l' ls].
    + cbn [removelast last app split_on]. rewrite Hc. reflexivity.
    + reflexivity.
Qed.

Lemma split_on_line (sep : cu) (l : jsstring) :
  ~ In sep l -> split_on sep l = [l].
Proof.
  induction l as [|c l IH]; intros H; [reflexivity|].
  cbn [split_on]. destruct (N.eqb_spec c sep) as [->|_].
  - exfalso; apply H; now left.
  - rewrite IH; [reflexivity|]. intros Hin; apply H; now right.
Qed.

Lemma split_on_cons_line (sep : cu) (l t : jsstring) :
  ~ In sep l -> split_on sep (l ++ sep :: t) = l :: split_on sep t.
Proof.
  induction l as [|c l IH]; intros H.
  - cbn [app split_on]. now rewrite N.eqb_refl.
  - cbn [app split_on]. destruct (N.eqb_spec c sep) as [->|_].
    + exfalso; apply H; now left.
    + rewrite IH; [reflexivity|]. intros Hin; apply H; now right.
Qed.

Lemma last_split_on_line (sep : cu) (s : jsstring) :
  ~ In sep (last (split_on sep s) []).
Proof.
  induction s as [|c s IH]; [simpl; tauto|].
  cbn [split_on]. pose proof (split_on_nonempty sep s) as Hne.
  destruct (N.eqb_spec c sep) as [->|Hc].
  - destruct (split_on sep s) as [|l ls]; [congruence|]. exact IH.
  - destruct (split_on sep s) as [|l ls]; [congruence|].
    destruct ls as [|l' ls]; [|exact IH].
    cbn [last] in *. intros [E|Hin]; [congruence|tauto].
Qed.

Lemma pop_spec {A : Type} (l : list A) (d : A) :
  l <> [] -> pop l = (Some (last l d), removelast l).
Proof.
  intros Hne. destruct (exists_last Hne) as (r & x & ->).
  unfold pop. rewrite rev_app_distr. simpl.
  now rewrite rev_involutive, last_last, removelast_last.
Qed.

Lemma complete_lines_line (l : jsstring) : is_line l -> complete_lines l = [].
Proof. intros H. unfold complete_lines. now rewrite split_on_line. Qed.

Lemma complete_lines_cons (l t : jsstring) :
  is_line l -> complete_lines (l ++ NL :: t) = l :: complete_lines t.
Proof.
  intros H. unfold complete_lines. rewrite split_on_cons_line by exact H.
  pose proof (split_on_nonempty NL t).
  destruct (split_on NL t); [congruence|reflexivity].
Qed.

Lemma complete_lines_unlines (ls : list jsstring) (t : jsstring) :
  Forall is_line ls -> complete_lines (unlines ls ++ t) = ls ++ complete_lines t.
Proof.
  induction 1 as [|l ls Hl _ IH]; [reflexivity|].
  cbn [unlines flat_map]. rewrite <- !app_assoc. cbn [app].
  rewrite complete_lines_cons by exact Hl. fold (unlines ls). now rewrite IH.
Qed.

Lemma complete_lines_app (s t : jsstring) :
  complete_lines (s ++ t) = complete_lines s ++ complete_lines (residue s ++ t).
Proof.
  unfold complete_lines, residue. rewrite split_on_app.
  apply removelast_app, split_on_nonempty.
Qed.

(** ** The decoder *)

Lemma decode_app (d : TextDecoder) (a b : list Byte.byte) :
  decode d (a ++ b) =
  let (d1, t1) := decode d a in
  let (d2, t2) := decode d1 b in (d2, t1 ++ t2).
Proof.
  revert d; induction a as [|x a IH]; intros d.
  - cbn [app decode]. now destruct (decode d b).
  - cbn [app decode].
    destruct (utf8_handler (td_utf8 d) (Byte.to_N x)) as [st items].
    destruct (td_items (td_bom_seen d) items) as [seen out].
    rewrite IH.
    destruct (decode _ a) as [d1 t1]. destruct (decode d1 b) as [d2 t2].
    now rewrite app_assoc.
Qed.

(** ** The read loop *)

Section StreamFacts.
Context {RT : Runtime}.

Lemma for_lines_app (full : jsstring) (l1 l2 : list jsstring) :
  for_lines full (l1 ++ l2) =
  let '(full1, out1, returned) := for_lines full l1 in
  if returned then (full1, out1, true)
  else let '(full2, out2, r) := for_lines full1 l2 in (full2, out1 ++ out2, r).
Proof.
  revert full; induction l1 as [|l l1 IH]; intros full.
  - cbn [app for_lines]. now destruct (for_lines full l2) as [[? ?] ?].
  - cbn [app for_lines]. destruct (on_line full l) as [|full' out]; [reflexivity|].
    rewrite IH. destruct (for_lines full' l1) as [[f1 o1] [|]]; [reflexivity|].
    destruct (for_lines f1 l2) as [[f2 o2] r]. now rewrite app_assoc.
Qed.

(** The loop reads the complete lines of the text that the decoder makes
    of all the chunks; what follows the last line feed is never read. *)
Lemma read_loop_text (cs : list (list Byte.byte)) :
  forall (d : TextDecoder) (buffer full : jsstring) (e : stream_end),
    is_line buffer ->
    read_loop d buffer full cs e =
    ended e (for_lines full
               (complete_lines (buffer ++ snd (decode d (List.concat cs))))).
Proof.
  induction cs as [|c cs IH]; intros d buffer full e Hb.
  - cbn [List.concat decode snd read_loop]. rewrite app_nil_r.
    rewrite complete_lines_line by exact Hb. now destruct e.
  - cbn [List.concat read_loop]. rewrite decode_app.
    destruct (decode d c) as [d1 t1].
    specialize (IH d1). destruct (decode d1 (List.concat cs)) as [d2 t2].
    cbn [snd] in *. cbn beta iota.
    rewrite (pop_spec (split_on NL (buffer ++ t1)) ([] : jsstring))
      by apply split_on_nonempty.
    fold (complete_lines (buffer ++ t1)). fold (residue (buffer ++ t1)).
    rewrite (app_assoc buffer t1 t2), (complete_lines_app (buffer ++ t1) t2),
      for_lines_app.
    destruct (for_lines full (complete_lines (buffer ++ t1))) as [[f1 o1] [|]];
      [reflexivity|].
    assert (Hm : match Some (residue (buffer ++ t1)) with
                 | Some (c0 :: l) => c0 :: l
                 | _ => []
                 end = residue (buffer ++ t1))
      by now destruct (residue (buffer ++ t1)).
    rewrite Hm. rewrite IH by apply last_split_on_line.
    now destruct (for_lines f1 _) as [[f2 o2] [|]].
Qed.

Lemma stream_translator_text (cs : list (list Byte.byte)) (e : stream_end) :
  stream_translator {| chunks := cs; ending := e |} =
  ended e (for_lines [] (complete_lines (decoded cs))).
Proof.
  unfold stream_translator. cbn [chunks ending].
  rewrite read_loop_text by (intros []). reflexivity.
Qed.

Lemma decoded_single (cs : list (list Byte.byte)) :
  decoded [List.concat cs] = decoded cs.
Proof. unfold decoded. cbn [List.concat]. now rewrite app_nil_r. Qed.

(** Two bodies that the translator treats alike leave [chatStream] with
    the same result. *)
Lemma chatStream_answering (w : World) (session : ZChatSession)
    (prompt : jsstring) (b b' : upstream_body) :
  stream_translator b = stream_translator b' ->
  chatStream (answering w b) session prompt =
  chatStream (answering w b') session prompt.
Proof.
  intros H. unfold chatStream. cbn [answering fetch_chat negb].
  replace (generateZaSignature (answering w b'))
    with (generateZaSignature (answering w b)) by reflexivity.
  now rewrite H.
Qed.

(** C1. However the upstream bytes are cut into chunks, also inside a
    line or inside a JSON object, the translator yields the same deltas,
    in the same order, as when the same bytes arrive in one chunk; the
    accumulated assistant text and the way the generator ends are the same
    too, and so is the whole result of [chatStream]. *)
Theorem chunk_boundaries_irrelevant (w : World) (session : ZChatSession)
    (prompt : jsstring) (cs : list (list Byte.byte)) (e : stream_end) :
  stream_translator {| chunks := cs; ending := e |} =
  stream_translator {| chunks := [List.concat cs]; ending := e |}
  /\ chatStream (answering w {| chunks := cs; ending := e |}) session prompt =
     chatStream (answering w {| chunks := [List.concat cs]; ending := e |})
       session prompt.
Proof.
  assert (H : stream_translator {| chunks := cs; ending := e |} =
              stream_translator {| chunks := [List.concat cs]; ending := e |}).
  { rewrite !stream_translator_text. now rewrite decoded_single. }
  split; [exact H|]. now apply chatStream_answering.
Qed.

Lemma on_line_done (full : jsstring) :
  on_line full (lit "data: [DONE]") = LReturn.
Proof. reflexivity. Qed.

Lemma for_lines_stops (full : jsstring) (before after : list jsstring) :
  for_lines full (before ++ lit "data: [DONE]" :: after) =
  let '(full', out, _) := for_lines full before in (full', out, true).
Proof.
  rewrite for_lines_app. destruct (for_lines full before) as [[f o] [|]];
    [reflexivity|].
  cbn [for_lines]. rewrite on_line_done. now rewrite app_nil_r.
Qed.

Lemma is_line_lit_done : is_line (lit "data: [DONE]").
Proof.
  unfold is_line, NL. cbn. intros H.
  repeat (destruct H as [H|H]; [discriminate H|]). exact H.
Qed.

(** C4. When the decoded upstream text holds a complete line
    [data: [DONE]], the translator yields what the lines before it yield
    and returns there: whatever follows that line, in the same chunk or in
    later ones, yields nothing and adds nothing to the assistant text.
    [chatStream] leaves the same result whatever follows the line and
    however the stream ends after it. *)
Theorem done_ends_the_stream (w : World) (session : ZChatSession)
    (prompt : jsstring) (cs : list (list Byte.byte)) (e : stream_end)
    (before : list jsstring) (post : jsstring) :
  Forall is_line before ->
  decoded cs = unlines before ++ lit "data: [DONE]" ++ NL :: post ->
  stream_translator {| chunks := cs; ending := e |} =
    (let '(full, out, _) := for_lines [] before in (full, out, Returned))
  /\ (forall (cs' : list (list Byte.byte)) (e' : stream_end) (post' : jsstring),
        decoded cs' = unlines before ++ lit "data: [DONE]" ++ NL :: post' ->
        chatStream (answering w {| chunks := cs; ending := e |}) session prompt =
        chatStream (answering w {| chunks := cs'; ending := e' |}) session prompt).
Proof.
  intros Hb Ht.
  assert (H : forall cs0 e0 post0,
             decoded cs0 = unlines before ++ lit "data: [DONE]" ++ NL :: post0 ->
             stream_translator {| chunks := cs0; ending := e0 |} =
             (let '(full, out, _) := for_lines [] before in (full, out, Returned))).
  { intros cs0 e0 post0 Ht0. rewrite stream_translator_text, Ht0.
    rewrite complete_lines_unlines by exact Hb.
    rewrite complete_lines_cons by exact is_line_lit_done.
    rewrite for_lines_stops.
    now destruct (for_lines [] before) as [[f o] r]. }
  split; [exact (H cs e post Ht)|].
  intros cs' e' post' Ht'. apply chatStream_answering.
  now rewrite (H cs e post Ht), (H cs' e' post' Ht').
Qed.

Lemma is_line_app (a b : jsstring) : is_line a -> is_line b -> is_line (a ++ b).
Proof. unfold is_line. intros Ha Hb Hin. apply in_app_or in Hin. tauto. Qed.

Lemma is_line_data_prefix : is_line (lit "data: ").
Proof.
  unfold is_line, NL. cbn. intros H.
  repeat (destruct H as [H|H]; [discriminate H|]). exact H.
Qed.

Lemma on_line_data (full payload : jsstring) :
  on_line full (lit "data: " ++ payload) =
  if str_eqb payload (lit "[DONE]") then LReturn
  else match try_payload full payload with
       | Some (full', out) => LNext full' out
       | None => LNext full []
       end.
Proof.
  unfold on_line. rewrite startsWith_app.
  now replace (slice_from 6 (lit "data: " ++ payload)) with payload by reflexivity.
Qed.

Lemma on_line_malformed (full payload : jsstring) :
  payload <> lit "[DONE]" -> JSON_parse payload = None ->
  on_line full (lit "data: " ++ payload) = LNext full [].
Proof.
  intros Hd Hp. rewrite on_line_data.
  destruct (str_eqb payload (lit "[DONE]")) eqn:E.
  - apply str_eqb_eq in E. contradiction.
  - unfold try_payload. now rewrite Hp.
Qed.

Lemma for_lines_skip (full : jsstring) (before after : list jsstring)
    (line : jsstring) :
  (forall f, on_line f line = LNext f []) ->
  for_lines full (before ++ line :: after) = for_lines full (before ++ after).
Proof.
  intros H. rewrite !for_lines_app.
  destruct (for_lines full before) as [[f o] [|]]; [reflexivity|].
  cbn [for_lines]. rewrite H. cbn [app].
  now destruct (for_lines f after) as [[f2 o2] r].
Qed.

(** C7. A complete [data: ] line whose payload is neither [[DONE]] nor
    text that [JSON.parse] accepts yields nothing, changes nothing and
    ends nothing; the translator, and [chatStream] with it, gives the
    result that it gives on the same upstream text without that line: no
    error, and the lines after it processed as before. *)
Theorem malformed_line_is_skipped (w : World) (session : ZChatSession)
    (prompt : jsstring) (cs cs' : list (list Byte.byte))
    (e : stream_end) (before : list jsstring) (payload post : jsstring) :
  Forall is_line before ->
  is_line payload ->
  payload <> lit "[DONE]" ->
  JSON_parse payload = None ->
  decoded cs = unlines before ++ (lit "data: " ++ payload) ++ NL :: post ->
  decoded cs' = unlines before ++ post ->
  (forall full, on_line full (lit "data: " ++ payload) = LNext full [])
  /\ stream_translator {| chunks := cs; ending := e |} =
     stream_translator {| chunks := cs'; ending := e |}
  /\ chatStream (answering w {| chunks := cs; ending := e |}) session prompt =
     chatStream (answering w {| chunks := cs'; ending := e |}) session prompt.
Proof.
  intros Hb Hl Hd Hp Ht Ht'.
  assert (Hskip : forall full, on_line full (lit "data: " ++ payload) = LNext full [])
    by (intros full; now apply on_line_malformed).
  assert (H : stream_translator {| chunks := cs; ending := e |} =
              stream_translator {| chunks := cs'; ending := e |}).
  { rewrite !stream_translator_text, Ht, Ht'.
    rewrite !complete_lines_unlines by exact Hb.
    rewrite complete_lines_cons
      by (apply is_line_app; [apply is_line_data_prefix|exact Hl]).
    now rewrite for_lines_skip by exact Hskip. }
  split; [exact Hskip|]. split; [exact H|]. now apply chatStream_answering.
Qed.

(** C10. What follows the last line feed of the upstream text is never
    processed: when the stream ends after an unterminated last line, the
    translator yields, and records as assistant text, exactly what the
    complete lines before it give, and [chatStream] leaves the same result
    as on a stream that ends before that line. *)
Theorem unterminated_last_line_dropped (w : World) (session : ZChatSession)
    (prompt : jsstring) (cs cs' : list (list Byte.byte)) (e : stream_end)
    (before : list jsstring) (tail : jsstring) :
  Forall is_line before ->
  is_line tail ->
  decoded cs = unlines before ++ tail ->
  decoded cs' = unlines before ->
  stream_translator {| chunks := cs; ending := e |} =
    ended e (for_lines [] before)
  /\ chatStream (answering w {| chunks := cs; ending := e |}) session prompt =
     chatStream (answering w {| chunks := cs'; ending := e |}) session prompt.
Proof.
  intros Hb Hl Ht Ht'.
  assert (H1 : stream_translator {| chunks := cs; ending := e |} =
               ended e (for_lines [] before)).
  { rewrite stream_translator_text, Ht.
    rewrite complete_lines_unlines by exact Hb.
    rewrite complete_lines_line by exact Hl. now rewrite app_nil_r. }
  split; [exact H1|].
  apply chatStream_answering. rewrite H1.
  rewrite stream_translator_text, Ht'.
  rewrite <- (app_nil_r (unlines before)).
  rewrite complete_lines_unlines by exact Hb.
  rewrite complete_lines_line by (intros []). now rewrite app_nil_r.
Qed.

(** ** The transcript *)

Lemma delta_of_truthy (dataJson chunk : jsval) :
  delta_of dataJson = Some (Some chunk) -> truthy chunk = true.
Proof.
  unfold delta_of. destruct (get dataJson (lit "data")) as [data|]; [|discriminate].
  destruct (truthy (if truthy data then _ else data)) eqn:E.
  - intros H; injection H as <-. exact E.
  - destruct (truthy (get_opt dataJson (lit "choices"))); [|discriminate].
    destruct (truthy (js_or _ (VStr []))) eqn:E'; [|discriminate].
    intros H; injection H as <-. exact E'.
Qed.

Lemma join_chunks_single (chunk : jsval) (s : jsstring) :
  truthy chunk = true -> toString chunk = Some s -> join_chunks [chunk] = Ok s.
Proof.
  intros Ht Hs. cbn [join_chunks]. unfold to_string. rewrite Hs.
  destruct chunk; try discriminate Ht; cbn; now rewrite app_nil_r.
Qed.

Lemma join_chunks_app (a b : list jsval) (s t : jsstring) :
  join_chunks a = Ok s -> join_chunks b = Ok t -> join_chunks (a ++ b) = Ok (s ++ t).
Proof.
  revert s; induction a as [|v a IH]; intros s Ha Hb.
  - injection Ha as <-. exact Hb.
  - cbn [app join_chunks] in *.
    destruct (match v with VUndefined | VNull => Ok [] | _ => to_string v end)
      as [sv|]; [|discriminate].
    cbn [bind] in *. destruct (join_chunks a) as [sa|]; [|discriminate].
    cbn [bind] in *. injection Ha as <-.
    rewrite (IH sa eq_refl Hb). cbn [bind]. now rewrite app_assoc.
Qed.

Lemma try_payload_join (full payload full' : jsstring) (out : list jsval) :
  try_payload full payload = Some (full', out) ->
  exists s, join_chunks out = Ok s /\ full' = full ++ s.
Proof.
  unfold try_payload. destruct (JSON_parse payload) as [j|]; [|discriminate].
  destruct (delta_of j) as [[chunk|]|] eqn:Hd; [| |discriminate].
  - destruct (toString chunk) as [s|] eqn:Hs; [|discriminate].
    intros H; injection H as <- <-. exists s. split; [|reflexivity].
    apply join_chunks_single; [|exact Hs]. eapply delta_of_truthy, Hd.
  - intros H; injection H as <- <-. exists []. now rewrite app_nil_r.
Qed.

Lemma on_line_join (full line full' : jsstring) (out : list jsval) :
  on_line full line = LNext full' out ->
  exists s, join_chunks out = Ok s /\ full' = full ++ s.
Proof.
  unfold on_line.
  assert (Hnil : LNext full [] = LNext full' out ->
                 exists s, join_chunks out = Ok s /\ full' = full ++ s).
  { intros H; injection H as <- <-. exists []. now rewrite app_nil_r. }
  destruct (startsWith line (lit "data: ")); [|exact Hnil].
  destruct (str_eqb _ _); [discriminate|].
  destruct (try_payload full _) as [[f o]|] eqn:E; [|exact Hnil].
  intros H; injection H as <- <-. eapply try_payload_join, E.
Qed.

(** The assistant text is the text of the chunks yielded, joined. *)
Lemma for_lines_join (lines : list jsstring) :
  forall (full full' : jsstring) (out : list jsval) (r : bool),
    for_lines full lines = (full', out, r) ->
    exists s, join_chunks out = Ok s /\ full' = full ++ s.
Proof.
  induction lines as [|l lines IH]; intros full full' out r H.
  - injection H as <- <- <-. exists []. now rewrite app_nil_r.
  - cbn [for_lines] in H. destruct (on_line full l) as [|f1 o1] eqn:E.
    + injection H as <- <- <-. exists []. now rewrite app_nil_r.
    + destruct (for_lines f1 lines) as [[f2 o2] r2] eqn:E2.
      injection H as <- <- <-.
      destruct (on_line_join _ _ _ _ E) as (s1 & J1 & ->).
      destruct (IH _ _ _ _ E2) as (s2 & J2 & ->).
      exists (s1 ++ s2). split; [now apply join_chunks_app|now rewrite app_assoc].
Qed.

Lemma stream_translator_join (b : upstream_body) (full : jsstring)
    (out : list jsval) (c : completion) :
  stream_translator b = (full, out, c) -> join_chunks out = Ok full.
Proof.
  destruct b as [cs e]. rewrite stream_translator_text.
  destruct (for_lines [] (complete_lines (decoded cs))) as [[f o] r] eqn:E.
  cbn [ended]. intros H; injection H as <- <- _.
  destruct (for_lines_join _ _ _ _ _ E) as (s & J & ->). exact J.
Qed.

(** C3, as the code has it.  One exchange appends the user entry, before
    the upstream call, and then at most one assistant entry: the text of
    the yielded deltas joined, whether the stream completed, returned at
    [[DONE]] or failed partway, and no entry at all when that text is
    empty (in particular when nothing was yielded). *)
Theorem transcript_of_one_exchange (w : World) (session : ZChatSession)
    (prompt : jsstring) :
  exists full,
    join_chunks (yields (chatStream w session prompt)) = Ok full
    /\ messages (session_after (chatStream w session prompt)) =
       messages session ++
       {| role := lit "user"; content := prompt |} ::
       match full with
       | [] => []
       | _ :: _ => [{| role := lit "assistant"; content := full |}]
       end.
Proof.
  unfold chatStream.
  assert (Hthrow : exists full,
    join_chunks [] = Ok full
    /\ messages (push_message session {| role := lit "user"; content := prompt |}) =
       messages session ++
       {| role := lit "user"; content := prompt |} ::
       match full with
       | [] => []
       | _ :: _ => [{| role := lit "assistant"; content := full |}]
       end) by (exists []; split; reflexivity).
  destruct (generateZaSignature _ _ _ _ _); [|exact Hthrow].
  destruct (fetch_chat w) as [|ok status body]; [exact Hthrow|].
  destruct ok; [|exact Hthrow]. cbn [negb].
  destruct body as [b|]; [|exact Hthrow].
  destruct (stream_translator b) as [[full out] c] eqn:E.
  exists full. cbn [yields session_after]. split.
  - eapply stream_translator_join, E.
  - destruct full; cbn [messages push_message]; [reflexivity|].
    now rewrite <- app_assoc.
Qed.


End StreamFacts.

(** ** The middleware *)

(** C5. On every path but the root: no Authorization header gives 401; a
    header that does not start with [Bearer ] gives 401; a key that does
    not start with [sk-] gives 401; with no server key configured, every
    key that starts with [sk-] lets the request proceed; with a server
    key configured, the request proceeds exactly when the key starts with
    [sk-] and is equal to the server key, and gets 401 otherwise.  The
    key is what follows [Bearer ], trimmed. *)
Theorem bearer_key_validation (API_KEY : option jsstring) (req : Request) :
  path req <> lit "/" ->
  (authorization req = None ->
   exists m, validateApiKey API_KEY req = Rejected 401 m)
  /\ (forall h, authorization req = Some h ->
      startsWith h (lit "Bearer ") = false ->
      exists m, validateApiKey API_KEY req = Rejected 401 m)
  /\ (forall h, authorization req = Some h ->
      startsWith (trim (slice_from 7 h)) (lit "sk-") = false ->
      exists m, validateApiKey API_KEY req = Rejected 401 m)
  /\ (forall h, API_KEY = None ->
      authorization req = Some h ->
      startsWith h (lit "Bearer ") = true ->
      startsWith (trim (slice_from 7 h)) (lit "sk-") = true ->
      validateApiKey API_KEY req = Next)
  /\ (forall h k, API_KEY = Some k -> k <> [] ->
      authorization req = Some h ->
      startsWith h (lit "Bearer ") = true ->
      (startsWith (trim (slice_from 7 h)) (lit "sk-") = true
       /\ trim (slice_from 7 h) = k ->
       validateApiKey API_KEY req = Next)
      /\ (trim (slice_from 7 h) <> k ->
          exists m, validateApiKey API_KEY req = Rejected 401 m)).
Proof.
  intros Hpath. unfold validateApiKey.
  destruct (str_eqb (path req) (lit "/")) eqn:Ep;
    [apply str_eqb_eq in Ep; contradiction|].
  split; [|split; [|split; [|split]]].
  - intros ->. eauto.
  - intros h -> Hb. destruct h as [|c h]; [eauto|]. rewrite Hb. cbn [negb]. eauto.
  - intros h -> Hk. destruct h as [|c h]; [eauto|].
    destruct (startsWith (c :: h) (lit "Bearer ")); cbn [negb]; [|eauto].
    cbv zeta. destruct (match API_KEY with Some (_ :: _ as key) => _ | _ => false end);
      [eauto|]. rewrite Hk. cbn [negb]. eauto.
  - intros h -> -> Hb Hk. destruct h as [|c h]; [discriminate Hb|].
    rewrite Hb. cbn [negb]. cbv zeta. now rewrite Hk.
  - intros h k -> Hk -> Hb.
    destruct h as [|c h]; [discriminate Hb|]. rewrite Hb. cbn [negb]. cbv zeta.
    destruct k as [|x k]; [contradiction|]. split.
    + intros [Hsk Heq]. rewrite Heq, str_eqb_refl. cbn [negb].
      rewrite <- Heq, Hsk. reflexivity.
    + intros Hne.
      destruct (str_eqb (trim (slice_from 7 (c :: h))) (x :: k)) eqn:E;
        [apply str_eqb_eq in E; contradiction|]. cbn [negb]. eauto.
Qed.

(** ** Integers as text *)

Lemma hex_value_digit (d : N) : d < 10 -> hex_value (48 + d) = Some d.
Proof.
  intros H. unfold hex_value.
  destruct (N.leb_spec 48 (48 + d)); [|lia].
  destruct (N.leb_spec (48 + d) 57); [|lia].
  cbn [andb]. f_equal. lia.
Qed.

Lemma parse_digits_digit (d : N) (s : jsstring) (acc : option N) :
  d < 10 ->
  parse_digits 10 ((48 + d) :: s) acc =
  parse_digits 10 s (Some (10 * match acc with Some a => a | None => 0 end + d)).
Proof.
  intros H. cbn [parse_digits]. rewrite hex_value_digit by exact H.
  now destruct (N.ltb_spec d 10); [|lia].
Qed.

Lemma decimal_digits_parse (fuel : nat) :
  forall (n : N) (acc : jsstring),
    n < 2 ^ N.of_nat fuel -> (0 < fuel)%nat ->
    parse_digits 10 (decimal_digits fuel n acc) None = parse_digits 10 acc (Some n).
Proof.
  induction fuel as [|fuel IH]; intros n acc Hn Hf; [lia|].
  cbn [decimal_digits].
  assert (Hm : n mod 10 < 10) by (apply N.mod_lt; discriminate).
  pose proof (N.div_mod n 10 ltac:(discriminate)) as Hdm.
  destruct (N.eqb_spec (n / 10) 0) as [Hz|Hnz].
  - rewrite parse_digits_digit by exact Hm. do 2 f_equal.
    rewrite Hz in Hdm. revert Hdm. generalize (n mod 10). intros; lia.
  - assert (Hn10 : 10 <= n).
    { destruct (N.lt_ge_cases n 10) as [Hlt|]; [|assumption].
      apply N.div_small in Hlt. contradiction. }
    assert (Hfuel : (0 < fuel)%nat).
    { destruct fuel; [|lia]. cbn in Hn. lia. }
    rewrite IH; [| |exact Hfuel].
    + rewrite parse_digits_digit by exact Hm. do 2 f_equal.
      revert Hdm. generalize (n mod 10), (n / 10). intros; lia.
    + rewrite Nat2N.inj_succ, N.pow_succ_r' in Hn.
      apply N.Div0.div_lt_upper_bound.
      revert Hn. generalize (2 ^ N.of_nat fuel). intros; lia.
Qed.

Lemma N_toString_parse (n : N) : parse_digits 10 (N_toString n) None = Some n.
Proof.
  unfold N_toString. rewrite decimal_digits_parse; [reflexivity| |lia].
  rewrite Nat2N.inj_succ, N2Nat.id, N.pow_succ_r'.
  pose proof (N.size_gt n). lia.
Qed.

Lemma decimal_digits_all (fuel : nat) :
  forall (n : N) (acc : jsstring),
    Forall (fun c => is_digit c = true) acc ->
    Forall (fun c => is_digit c = true) (decimal_digits fuel n acc).
Proof.
  induction fuel as [|fuel IH]; intros n acc Hacc; [exact Hacc|].
  cbn [decimal_digits].
  assert (Hd : is_digit (48 + n mod 10) = true).
  { pose proof (N.mod_lt n 10 ltac:(discriminate)) as Hm. unfold is_digit.
    revert Hm. generalize (n mod 10). intros m Hm.
    apply andb_true_iff; split; apply N.leb_le; lia. }
  destruct (n / 10 =? 0); [|apply IH]; constructor; assumption.
Qed.

Lemma decimal_digits_nonempty (fuel : nat) (n : N) (acc : jsstring) :
  decimal_digits (S fuel) n acc <> [].
Proof.
  revert n acc; induction fuel as [|fuel IH]; intros n acc.
  - cbn. destruct (n / 10 =? 0); discriminate.
  - cbn [decimal_digits]. destruct (n / 10 =? 0); [discriminate|].
    apply IH.
Qed.

Lemma is_digit_bounds (c : cu) : is_digit c = true -> 48 <= c <= 57.
Proof.
  unfold is_digit. rewrite andb_true_iff, !N.leb_le. tauto.
Qed.

Lemma is_digit_not_space (c : cu) : is_digit c = true -> is_js_space c = false.
Proof.
  intros H. apply is_digit_bounds in H. unfold is_js_space.
  repeat match goal with
         | |- context [?a =? ?b] => destruct (N.eqb_spec a b); try lia
         | |- context [?a <=? ?b] => destruct (N.leb_spec a b); try lia
         end; reflexivity.
Qed.

(** [parseInt] on a text of decimal digits, and on its negation. *)
Lemma parseInt_digits (s : jsstring) :
  s <> [] -> Forall (fun c => is_digit c = true) s ->
  parseInt s =
    match parse_digits 10 s None with
    | Some m => Some (Z.of_N m)
    | None => None
    end
  /\ parseInt (45 :: s) =
    match parse_digits 10 s None with
    | Some m => Some (- Z.of_N m)%Z
    | None => None
    end.
Proof.
  intros Hne Hall. destruct s as [|c s]; [contradiction|].
  inversion Hall as [|? ? Hc Hs]; subst.
  pose proof (is_digit_bounds _ Hc) as Bc.
  assert (Hhex : forall x rest, s = x :: rest ->
            (c =? 48) && ((x =? 120) || (x =? 88)) = false).
  { intros x rest ->. inversion Hs as [|? ? Hx _]; subst.
    apply is_digit_bounds in Hx.
    destruct (N.eqb_spec x 120); [lia|]. destruct (N.eqb_spec x 88); [lia|].
    now rewrite andb_false_r. }
  split.
  - unfold parseInt. cbn [trimStart]. rewrite (is_digit_not_space _ Hc).
    destruct (N.eqb_spec c 45); [lia|]. destruct (N.eqb_spec c 43); [lia|].
    destruct s as [|x rest]; [reflexivity|].
    now rewrite (Hhex x rest eq_refl).
  - unfold parseInt. cbn [trimStart].
    replace (is_js_space 45) with false by reflexivity.
    rewrite N.eqb_refl.
    destruct s as [|x rest]; [reflexivity|].
    now rewrite (Hhex x rest eq_refl).
Qed.

Lemma parseInt_Z_toString (z : Z) : parseInt (Z_toString z) = Some z.
Proof.
  unfold Z_toString.
  assert (Hne : N_toString (Z.abs_N z) <> []) by apply decimal_digits_nonempty.
  assert (Hall : Forall (fun c => is_digit c = true) (N_toString (Z.abs_N z)))
    by (apply decimal_digits_all; constructor).
  destruct (parseInt_digits _ Hne Hall) as [Hpos Hneg].
  rewrite N_toString_parse in Hpos, Hneg.
  destruct (Z.ltb_spec z 0).
  - rewrite Hneg. f_equal. rewrite N2Z.inj_abs_N. lia.
  - rewrite Hpos. f_equal. rewrite N2Z.inj_abs_N. lia.
Qed.

(** The bucket of the source, computed through the decimal text of the
    timestamp, is the floor of the timestamp divided by 300000. *)
Lemma bucket_of_timestamp (now : Z) :
  bucket_of (Z_toString now) = Some (now / 300000)%Z.
Proof. unfold bucket_of. now rewrite parseInt_Z_toString. Qed.

(** ** Digests *)

Lemma sha256_round_length (s : list N) (kw : N * N) :
  List.length (sha256_round s kw) = List.length s.
Proof.
  unfold sha256_round.
  repeat (destruct s as [|? s]; try reflexivity).
Qed.

Lemma sha256_block_length (h block : list N) :
  List.length (sha256_block h block) = List.length h.
Proof.
  unfold sha256_block. rewrite length_map, length_combine.
  assert (H : forall l s, List.length (fold_left sha256_round l s) = List.length s).
  { induction l as [|x l IH]; intros s; [reflexivity|].
    cbn [fold_left]. now rewrite IH, sha256_round_length. }
  rewrite H. apply Nat.min_id.
Qed.

Lemma sha256_blocks_length (n : nat) :
  forall h ws, List.length (sha256_blocks n h ws) = List.length h.
Proof.
  induction n as [|n IH]; intros h ws; [reflexivity|].
  cbn [sha256_blocks]. now rewrite IH, sha256_block_length.
Qed.

Lemma sha256_nonempty (msg : list octet) : sha256 msg <> [].
Proof.
  unfold sha256.
  pose proof (sha256_blocks_length
                (List.length (words_of_bytes (sha256_pad msg)) / 16)
                sha256_H0 (words_of_bytes (sha256_pad msg))) as H.
  destruct (sha256_blocks _ _ _) as [|x l]; [discriminate H|].
  cbn. discriminate.
Qed.

Lemma hmac_sha256_nonempty (key msg : list octet) : hmac_sha256 key msg <> [].
Proof. apply sha256_nonempty. Qed.

Lemma utf8_of_cp_nonempty (c : N) : utf8_of_cp c <> [].
Proof.
  unfold utf8_of_cp.
  destruct (c <? 0x80); [discriminate|].
  destruct (c <? 0x800); [discriminate|].
  destruct (c <? 0x10000); discriminate.
Qed.

Lemma TextEncoder_encode_nonempty (s : jsstring) :
  s <> [] -> TextEncoder_encode s <> [].
Proof.
  intros Hs. unfold TextEncoder_encode.
  assert (Hcp : code_points s <> []).
  { destruct s as [|c s]; [contradiction|]. cbn [code_points].
    destruct (is_high_surrogate c).
    - destruct s as [|d s]; [discriminate|].
      destruct (is_low_surrogate d); discriminate.
    - destruct (is_low_surrogate c); discriminate. }
  destruct (code_points s) as [|p ps]; [contradiction|].
  cbn [flat_map]. intros H. apply app_eq_nil in H as [H _].
  destruct p; now apply utf8_of_cp_nonempty in H.
Qed.

Lemma hex_of_bytes_nonempty (bs : list octet) : bs <> [] -> hex_of_bytes bs <> [].
Proof. destruct bs; [contradiction|discriminate]. Qed.

Lemma generateHmacSignature_ok (key data : jsstring) :
  key <> [] ->
  generateHmacSignature key data =
  Ok (hex_of_bytes (hmac_sha256 (TextEncoder_encode key) (TextEncoder_encode data))).
Proof.
  intros Hk. unfold generateHmacSignature.
  pose proof (TextEncoder_encode_nonempty _ Hk).
  now destruct (TextEncoder_encode key).
Qed.

(** ** Bucket keys *)

(** Two timestamps of the same five-minute window derive the same bucket
    key. *)
Lemma same_window_same_bucket_key (salt : jsstring) (t1 t2 : Z) :
  (t1 / 300000 = t2 / 300000)%Z ->
  generateHmacSignature salt (bucket_toString (bucket_of (Z_toString t1))) =
  generateHmacSignature salt (bucket_toString (bucket_of (Z_toString t2))).
Proof. intros H. rewrite !bucket_of_timestamp, H. reflexivity. Qed.

(** Two timestamps of different windows derive their keys from different
    texts. *)
Lemma different_windows_different_bucket_text (t1 t2 : Z) :
  (t1 / 300000 <> t2 / 300000)%Z ->
  bucket_toString (bucket_of (Z_toString t1)) <>
  bucket_toString (bucket_of (Z_toString t2)).
Proof.
  intros H E. rewrite !bucket_of_timestamp in E. cbn [bucket_toString] in E.
  apply (f_equal parseInt) in E. rewrite !parseInt_Z_toString in E.
  injection E as E. contradiction.
Qed.

(** ** The signer *)

Section SignerFacts.
Context {RT : Runtime}.

(** The entries of [payloadDict], sorted by key. *)
Lemma sorted_payload (timestamp request_id : jsstring) (user_id : jsval) :
  sort_entries
    [(lit "timestamp", VStr timestamp); (lit "requestId", VStr request_id);
     (lit "user_id", user_id)] =
  [(lit "requestId", VStr request_id); (lit "timestamp", VStr timestamp);
   (lit "user_id", user_id)].
Proof. reflexivity. Qed.

Lemma entries_toString_payload (timestamp request_id user : jsstring) :
  entries_toString
    [(lit "requestId", VStr request_id); (lit "timestamp", VStr timestamp);
     (lit "user_id", VStr user)] =
  Ok [(lit "requestId", request_id); (lit "timestamp", timestamp);
      (lit "user_id", user)].
Proof. reflexivity. Qed.

(** The query parameters have string forms as soon as the token has
    one. *)
Lemma entries_toString_params (timestamp request_id user token_text : jsstring)
    (token : jsval) :
  to_string token = Ok token_text ->
  exists params,
    entries_toString
      ([(lit "timestamp", VStr timestamp); (lit "requestId", VStr request_id);
        (lit "user_id", VStr user)] ++
       [(lit "version", VStr (lit "0.0.1"));
        (lit "platform", VStr (lit "web"));
        (lit "token", token);
        (lit "user_agent",
         VStr (lit "Mozilla/5.0 (Windows NT 10.0; Win64; x64) Chrome/120.0.0.0"));
        (lit "language", VStr (lit "en-US"));
        (lit "screen_resolution", VStr (lit "1920x1080"));
        (lit "viewport_size", VStr (lit "1920x1080"));
        (lit "timezone", VStr (lit "Europe/Paris"));
        (lit "timezone_offset", VStr (lit "-60"))]) = Ok params.
Proof.
  intros Htok. cbn [app entries_toString].
  unfold to_string at 1 2 3 4 5. cbn [toString bind]. rewrite Htok. cbn [bind].
  unfold to_string. cbn [toString bind]. eauto.
Qed.

(** The sorted metadata, joined, in front of the prompt and the
    timestamp: the canonical string. *)
Lemma sorted_payload_text (timestamp request_id user promptB64 : jsstring) :
  join (lit ",")
    (map (fun kv : jsstring * jsstring => fst kv ++ lit "," ++ snd kv)
       [(lit "requestId", request_id); (lit "timestamp", timestamp);
        (lit "user_id", user)])
  ++ lit "|" ++ promptB64 ++ lit "|" ++ timestamp =
  canonical_string timestamp request_id user promptB64.
Proof.
  unfold canonical_string. cbn [map join fst snd]. now rewrite <- !app_assoc.
Qed.

(** C2, as the code has it.  With a shared secret that is not empty, a
    trimmed prompt that [base64Encode] accepts and a token that has a
    string form, [generateZaSignature] returns, and its signature is the
    hexadecimal HMAC-SHA256 of the canonical string
    [requestId,<id>,timestamp,<ms>,user_id,<uid>|<base64 prompt>|<ms>]
    under the bucket key, where the bucket key is the hexadecimal text of
    HMAC-SHA256(secret, stringify(floor(ms / 300000))), used as a string
    key. *)
Theorem signature_is_keyed_by_hex_digest (w : World)
    (prompt promptB64 user salt token_text : jsstring) (token : jsval) :
  salt <> [] ->
  base64Encode (trim prompt) = Ok promptB64 ->
  to_string token = Ok token_text ->
  exists r,
    generateZaSignature w prompt token (VStr user) salt = Ok r
    /\ timestamp r = Z_toString (now_signing w)
    /\ signature r =
       signature_keyed_by_hex (now_signing w)
         (generateRequestId (random_request_id w)) user promptB64 salt.
Proof.
  intros Hsalt Hb64 Htok. unfold generateZaSignature.
  rewrite bucket_of_timestamp. cbn [bucket_toString].
  rewrite generateHmacSignature_ok by exact Hsalt. cbn [bind].
  rewrite sorted_payload, entries_toString_payload. cbn [bind].
  rewrite Hb64. cbn [bind].
  rewrite generateHmacSignature_ok
    by (apply hex_of_bytes_nonempty, hmac_sha256_nonempty).
  cbn [bind].
  destruct (entries_toString_params (Z_toString (now_signing w))
              (generateRequestId (random_request_id w)) user token_text token Htok)
    as [params Hparams].
  unfold generateUrlParams.
  match goal with
  | |- context [entries_toString ?l] =>
      destruct (entries_toString l) as [ps|e] eqn:E;
        [|discriminate (eq_trans (eq_sym E) Hparams)]
  end.
  cbn [bind].
  eexists. split; [reflexivity|]. cbn [timestamp signature].
  split; [reflexivity|].
  unfold signature_keyed_by_hex, bucket_digest.
  now rewrite sorted_payload_text.
Qed.

End SignerFacts.

(** ** The session and the completions endpoint *)

Section SessionFacts.
Context {RT : Runtime}.

Lemma hd_split_on (sep : cu) (s : jsstring) :
  hd [] (split_on sep s) = take_until sep s.
Proof.
  induction s as [|c s IH]; [reflexivity|].
  cbn [split_on take_until]. destruct (c =? sep); [reflexivity|].
  pose proof (split_on_nonempty sep s).
  destruct (split_on sep s) as [|l ls]; [congruence|].
  cbn [hd] in *. now rewrite IH.
Qed.

Lemma get_some_not_null (v x : jsval) (k k' : jsstring) :
  get v k = Some x -> exists y, get v k' = Some y.
Proof. destruct v; cbn; try discriminate; eauto. Qed.

(** C9, as the code has it.  Let the upstream hand out a token that is a
    non-empty string of three dot-separated segments.  When the middle
    segment (with [==] appended) does not decode, or decodes to a text
    that [JSON.parse] refuses, the session keeps the token and its
    default identity: an empty user id and the display name [Guest].
    When it decodes and parses to a payload with a non-empty string
    [email], the display name is the part of the email before its first
    [@]; with an [email] that is absent or falsy the name stays
    [Guest]. *)
Theorem identity_claims_of_token (w : World) (t a mid c : jsstring) :
  obtain_token w = Ok (VStr t) ->
  t <> [] ->
  split_on 46 t = [a; mid; c] ->
  ((forall text, base64Decode (mid ++ lit "==") = Ok text ->
                 JSON_parse text = None) ->
   token (initializeZChat w) = VStr t
   /\ user_id (initializeZChat w) = VStr []
   /\ user_name (initializeZChat w) = lit "Guest")
  /\ (forall text payload email,
        base64Decode (mid ++ lit "==") = Ok text ->
        JSON_parse text = Some payload ->
        get payload (lit "email") = Some email ->
        (forall e, email = VStr e -> e <> [] ->
                   user_name (initializeZChat w) = take_until 64 e)
        /\ (truthy email = false ->
            user_name (initializeZChat w) = lit "Guest")).
Proof.
  intros Hobt Hne Hsplit. unfold initializeZChat.
  destruct (scrapeConfig w) as [salt fe]. rewrite Hobt.
  assert (Htr : truthy (@VStr Number t) = true) by (destruct t; [contradiction|reflexivity]).
  rewrite Htr. unfold decode_claims. cbn [token set_token].
  rewrite Hsplit. cbn [List.length Nat.eqb nth].
  split.
  - intros Hfail. destruct (base64Decode (mid ++ lit "==")) as [text|e] eqn:Hd.
    + rewrite (Hfail text eq_refl). cbn. auto.
    + cbn. auto.
  - intros text payload email Hd Hp He. rewrite Hd, Hp.
    destruct (get_some_not_null _ _ _ (lit "id") He) as [idv Hid].
    rewrite Hid, He. split.
    + intros e -> Hne'.
      assert (Hor : js_or (VStr e) (VStr (lit "Guest")) = @VStr Number e)
        by (unfold js_or; destruct e; [contradiction|reflexivity]).
      rewrite Hor. rewrite hd_split_on.
      now destruct (user_id (set_user_name _ _)).
    + intros Hf.
      assert (Hor : js_or email (VStr (lit "Guest")) = VStr (lit "Guest"))
        by (unfold js_or; now rewrite Hf).
      rewrite Hor. now destruct (user_id (set_user_name _ _)).
Qed.

(** C6. A non-streaming completions request whose only message is the
    user message [Hello], answered by an upstream from which
    [chatStream] yields exactly the deltas [Hi] and [ there] and then
    ends normally, gets a 200 whose single choice carries the assistant
    message [Hi there] with finish reason [stop], 2 completion tokens
    (the ceiling of 8/4), the ceiling of 5/4 prompt tokens, and their sum
    as total. *)
Theorem hello_completion (w : World) (m : option jsstring) (s : option bool) :
  let request :=
    {| req_model := m;
       req_messages := [{| role := lit "user"; content := lit "Hello" |}];
       req_stream := s |} in
  s <> Some true ->
  yields (chatStream w (completions_session w request) (lit "Hello")) =
    [VStr (lit "Hi"); VStr (lit " there")] ->
  outcome (chatStream w (completions_session w request) (lit "Hello")) <> Thrown ->
  exists response,
    chat_completions w request = Json 200 response
    /\ choices response =
       [{| index := 0;
           message := {| role := lit "assistant"; content := lit "Hi there" |};
           finish_reason := lit "stop" |}]
    /\ completion_tokens (usage response) = ceil_div 8 4
    /\ ceil_div 8 4 = 2
    /\ prompt_tokens (usage response) = ceil_div 5 4
    /\ total_tokens (usage response) =
       prompt_tokens (usage response) + completion_tokens (usage response).
Proof.
  intros request Hs Hy Ho. unfold chat_completions.
  cbn [req_messages request map last content].
  fold request. rewrite Hy.
  assert (Hstream : match req_stream request with Some b => b | None => false end = false).
  { cbn [request req_stream]. destruct s as [[|]|]; congruence. }
  rewrite Hstream.
  assert (Hjoin : join_chunks [VStr (lit "Hi"); VStr (lit " there")] =
                  Ok (lit "Hi there")) by reflexivity.
  rewrite Hjoin.
  destruct (outcome (chatStream w (completions_session w request) (lit "Hello")));
    try contradiction;
    (eexists; split; [reflexivity|]; cbn [choices usage completion_tokens
       prompt_tokens total_tokens]; repeat split).
Qed.

End SessionFacts.

(** * The facts on examples *)

Module Checks.
Import Basic Examples.

Lemma is_line_check (l : jsstring) :
  forallb (fun c => negb (c =? NL)) l = true -> is_line l.
Proof.
  intros H Hin. rewrite forallb_forall in H. specialize (H _ Hin).
  now rewrite N.eqb_refl in H.
Qed.

(** The digest of FIPS 180-4, appendix B.1, and the second test case of
    RFC 4231. *)
Example sha256_abc :
  hex_of_bytes (sha256 (TextEncoder_encode (lit "abc"))) =
  lit "ba7816bf8f01cfea414140de5dae2223b00361a396177a9cb410ff61f20015ad".
Proof. vm_compute. reflexivity. Qed.

Example hmac_sha256_jefe :
  generateHmacSignature (lit "Jefe") (lit "what do ya want for nothing?") =
  Ok (lit "5bdcc146bf60754e6a042426089575c75a003f089d2739839dec58b964ec3843").
Proof. vm_compute. reflexivity. Qed.

Example base64_examples :
  base64Encode (lit "Hello") = Ok (lit "SGVsbG8=")
  /\ base64Encode [0xD800] = Throw URIError
  /\ base64Decode (lit "SGVsbG8=") = Ok (lit "Hello")
  /\ base64Decode (lit "SGVsbG8" ++ lit "==") = Throw InvalidCharacterError.
Proof. repeat split; vm_compute; reflexivity. Qed.

(** A byte order mark, a four-byte sequence cut between two chunks, and a
    byte that is not UTF-8. *)
Example decoded_example :
  decoded [[Byte.xef; Byte.xbb; Byte.xbf; Byte.xf0; Byte.x9f];
           [Byte.x98; Byte.x80; Byte.xff; Byte.x41]] =
  [0xD83D; 0xDE00; 0xFFFD; 0x41].
Proof. vm_compute. reflexivity. Qed.

(** The stream of [world]: two deltas, in two chunks cut inside a line,
    then the terminator. *)
Lemma done_ends_the_stream_example :
  Forall is_line lines_before_done
  /\ decoded upstream_chunks =
     unlines lines_before_done ++ lit "data: [DONE]" ++ NL :: text_after_done
  /\ stream_translator {| chunks := upstream_chunks; ending := Closed |} =
     (let '(full, out, _) := for_lines [] lines_before_done in
      (full, out, Returned)).
Proof.
  assert (H1 : Forall is_line lines_before_done)
    by (repeat constructor; apply is_line_check; reflexivity).
  assert (H2 : decoded upstream_chunks =
               unlines lines_before_done ++ lit "data: [DONE]" ++ NL :: text_after_done)
    by (vm_compute; reflexivity).
  split; [exact H1|]. split; [exact H2|].
  exact (proj1 (done_ends_the_stream world session (lit "Hello") upstream_chunks
                  Closed lines_before_done text_after_done H1 H2)).
Defined.

Example done_ends_the_stream_value :
  stream_translator {| chunks := upstream_chunks; ending := Closed |} =
  (lit "Hi there", [VStr (lit "Hi"); VStr (lit " there")], Returned).
Proof. vm_compute. reflexivity. Qed.

Lemma malformed_line_is_skipped_example :
  Forall is_line [quoted "data: {'data':{'delta_content':'Hi'}}"]
  /\ is_line cut_payload
  /\ cut_payload <> lit "[DONE]"
  /\ JSON_parse cut_payload = None
  /\ ((forall full, on_line full (lit "data: " ++ cut_payload) = LNext full [])
      /\ stream_translator {| chunks := chunks_with_cut_event; ending := Closed |} =
         stream_translator {| chunks := chunks_without_cut_event; ending := Closed |}
      /\ chatStream
           (answering world {| chunks := chunks_with_cut_event; ending := Closed |})
           session (lit "Hello") =
         chatStream
           (answering world {| chunks := chunks_without_cut_event; ending := Closed |})
           session (lit "Hello")).
Proof.
  assert (H1 : Forall is_line [quoted "data: {'data':{'delta_content':'Hi'}}"])
    by (repeat constructor; apply is_line_check; reflexivity).
  assert (H2 : is_line cut_payload) by (apply is_line_check; reflexivity).
  assert (H3 : cut_payload <> lit "[DONE]") by discriminate.
  assert (H4 : JSON_parse cut_payload = None) by (vm_compute; reflexivity).
  repeat (split; [assumption|]).
  apply (malformed_line_is_skipped world session (lit "Hello")
           chunks_with_cut_event chunks_without_cut_event
           Closed [quoted "data: {'data':{'delta_content':'Hi'}}"] cut_payload
           (quoted "data: {'data':{'delta_content':' there'}}" ++ [NL]) H1 H2 H3 H4);
    vm_compute; reflexivity.
Defined.

Lemma unterminated_last_line_dropped_example :
  Forall is_line [quoted "data: {'data':{'delta_content':'Hi'}}"]
  /\ is_line (quoted "data: {'data':{'delta_content':' there'}}")
  /\ (stream_translator {| chunks := chunks_unterminated; ending := Closed |} =
        ended Closed
          (for_lines [] [quoted "data: {'data':{'delta_content':'Hi'}}"])
      /\ chatStream
           (answering world {| chunks := chunks_unterminated; ending := Closed |})
           session (lit "Hello") =
         chatStream
           (answering world {| chunks := chunks_terminated; ending := Closed |})
           session (lit "Hello")).
Proof.
  assert (H1 : Forall is_line [quoted "data: {'data':{'delta_content':'Hi'}}"])
    by (repeat constructor; apply is_line_check; reflexivity).
  assert (H2 : is_line (quoted "data: {'data':{'delta_content':' there'}}"))
    by (apply is_line_check; reflexivity).
  repeat (split; [assumption|]).
  apply (unterminated_last_line_dropped world session (lit "Hello")
           chunks_unterminated chunks_terminated Closed
           [quoted "data: {'data':{'delta_content':'Hi'}}"]
           (quoted "data: {'data':{'delta_content':' there'}}") H1 H2);
    vm_compute; reflexivity.
Defined.

Example unterminated_last_line_value :
  stream_translator {| chunks := chunks_unterminated; ending := Closed |} =
  (lit "Hi", [VStr (lit "Hi")], Finished).
Proof. vm_compute. reflexivity. Qed.

(** C3 fails as stated: an exchange whose stream holds only the
    terminator completes and leaves the user entry alone, with no
    assistant entry after it. *)
Lemma no_assistant_entry_without_text :
  let r := chatStream (answering world only_done) session (lit "Hello") in
  outcome r = Returned
  /\ yields r = []
  /\ messages (session_after r) =
     messages session ++ [{| role := lit "user"; content := lit "Hello" |}]
  /\ ~ (exists assistant,
          messages (session_after r) =
          messages session ++
          [{| role := lit "user"; content := lit "Hello" |}; assistant]).
Proof.
  vm_compute. repeat split. intros [a H]. discriminate H.
Qed.

Lemma bearer_key_validation_example :
  let req := {| path := lit "/chat"; authorization := Some (lit "Bearer abc") |} in
  path req <> lit "/"
  /\ exists m, validateApiKey None req = Rejected 401 m.
Proof.
  intros req. assert (H : path req <> lit "/") by discriminate.
  split; [exact H|].
  destruct (bearer_key_validation None req H) as (_ & _ & H3 & _).
  exact (H3 (lit "Bearer abc") eq_refl eq_refl).
Defined.

Example bearer_key_examples :
  validateApiKey None {| path := lit "/chat"; authorization := None |}
    = Rejected 401 (lit "Missing Authorization header")
  /\ validateApiKey None
       {| path := lit "/chat"; authorization := Some (lit "Bearer abc") |}
     = Rejected 401 (lit "Invalid API key format. Expected: sk-...")
  /\ validateApiKey None
       {| path := lit "/chat"; authorization := Some (lit "Bearer sk-anything") |}
     = Next
  /\ validateApiKey (Some (lit "sk-server"))
       {| path := lit "/chat"; authorization := Some (lit "Bearer sk-anything") |}
     = Rejected 401 (lit "Invalid API key")
  /\ validateApiKey (Some (lit "sk-server"))
       {| path := lit "/"; authorization := None |}
     = Next.
Proof. repeat split. Qed.

Lemma hello_completion_example :
  Some false <> Some true
  /\ yields (chatStream world (completions_session world hello) (lit "Hello")) =
     [VStr (lit "Hi"); VStr (lit " there")]
  /\ outcome (chatStream world (completions_session world hello) (lit "Hello"))
     <> Thrown
  /\ exists response,
       chat_completions world hello = Json 200 response
       /\ choices response =
          [{| index := 0;
              message := {| role := lit "assistant"; content := lit "Hi there" |};
              finish_reason := lit "stop" |}]
       /\ completion_tokens (usage response) = ceil_div 8 4
       /\ ceil_div 8 4 = 2
       /\ prompt_tokens (usage response) = ceil_div 5 4
       /\ total_tokens (usage response) =
          prompt_tokens (usage response) + completion_tokens (usage response).
Proof.
  assert (H1 : Some false <> Some true) by discriminate.
  assert (H2 : yields (chatStream world (completions_session world hello) (lit "Hello")) =
               [VStr (lit "Hi"); VStr (lit " there")]) by (vm_compute; reflexivity).
  assert (H3 : outcome (chatStream world (completions_session world hello) (lit "Hello"))
               <> Thrown) by (vm_compute; discriminate).
  repeat (split; [assumption|]).
  exact (hello_completion world None (Some false) H1 H2 H3).
Defined.

Lemma identity_claims_of_token_example :
  let t := lit "aaa.eyJpZCI6InUxIiwiZW1haWwiOiJib2JAeC5jb20ifQ.ccc" in
  obtain_token world = Ok (VStr t)
  /\ t <> []
  /\ split_on 46 t =
     [lit "aaa"; lit "eyJpZCI6InUxIiwiZW1haWwiOiJib2JAeC5jb20ifQ"; lit "ccc"]
  /\ user_name (initializeZChat world) = take_until 64 (lit "bob@x.com").
Proof.
  intros t.
  assert (H1 : obtain_token world = Ok (VStr t)) by (vm_compute; reflexivity).
  assert (H2 : t <> []) by discriminate.
  assert (H3 : split_on 46 t =
     [lit "aaa"; lit "eyJpZCI6InUxIiwiZW1haWwiOiJib2JAeC5jb20ifQ"; lit "ccc"])
    by (vm_compute; reflexivity).
  repeat (split; [assumption|]).
  destruct (identity_claims_of_token world t _ _ _ H1 H2 H3) as [_ Hok].
  refine (proj1 (Hok (quoted "{'id':'u1','email':'bob@x.com'}")
                   (VObj [(lit "id", VStr (lit "u1"));
                          (lit "email", VStr (lit "bob@x.com"))])
                   (VStr (lit "bob@x.com")) _ _ _) _ eq_refl _);
    try (vm_compute; reflexivity); discriminate.
Defined.

(** C9 fails as stated: the middle segment of this token does not decode
    (its sixteen characters and the appended [==] are not a multiple of
    four), and the display name is then [Guest], not empty. *)
Lemma guest_name_after_failed_decode :
  let s := initializeZChat world_undecodable in
  token s = VStr (lit "h.eyJpZCI6IjEyMyJ9.s")
  /\ base64Decode (lit "eyJpZCI6IjEyMyJ9" ++ lit "==") = Throw InvalidCharacterError
  /\ user_name s = lit "Guest"
  /\ ~ (user_id s = VStr [] /\ user_name s = []).
Proof.
  vm_compute. repeat split. intros [_ H]. discriminate H.
Qed.

Lemma signature_is_keyed_by_hex_digest_example :
  let salt := lit "key-@@@@)))()((9))-xxxx&&&%%%%%" in
  salt <> []
  /\ base64Encode (trim (lit " Hello ")) = Ok (lit "SGVsbG8=")
  /\ to_string (VStr (lit "tok")) = Ok (lit "tok")
  /\ exists r,
       generateZaSignature world (lit " Hello ") (VStr (lit "tok"))
         (VStr (lit "u1")) salt = Ok r
       /\ timestamp r = Z_toString (now_signing world)
       /\ signature r =
          signature_keyed_by_hex (now_signing world)
            (generateRequestId (random_request_id world)) (lit "u1")
            (lit "SGVsbG8=") salt.
Proof.
  intros salt.
  assert (H1 : salt <> []) by discriminate.
  assert (H2 : base64Encode (trim (lit " Hello ")) = Ok (lit "SGVsbG8="))
    by (vm_compute; reflexivity).
  assert (H3 : to_string (VStr (lit "tok")) = Ok (lit "tok")) by reflexivity.
  repeat (split; [assumption|]).
  exact (signature_is_keyed_by_hex_digest world (lit " Hello ") (lit "SGVsbG8=")
           (lit "u1") salt (lit "tok") (VStr (lit "tok")) H1 H2 H3).
Defined.

(** C2 fails as stated: keyed by the digest itself, the signature of this
    request would be another one. *)
Lemma signature_is_not_keyed_by_digest :
  let salt := lit "key-@@@@)))()((9))-xxxx&&&%%%%%" in
  exists r,
    generateZaSignature world (lit " Hello ") (VStr (lit "tok"))
      (VStr (lit "u1")) salt = Ok r
    /\ signature r =
       lit "5e4ac78eed523b946c8598bf390a3e043624ea7db43cc626ab51ec625b1e1dc1"
    /\ signature r <>
       signature_keyed_by_digest (now_signing world)
         (generateRequestId (random_request_id world)) (lit "u1")
         (lit "SGVsbG8=") salt.
Proof.
  eexists. split; [vm_compute; reflexivity|].
  split; [vm_compute; reflexivity|]. vm_compute. discriminate.
Qed.

End Checks.


(** * Further facts *)

Ltac Zify.zify_post_hook ::= Z.to_euclidean_division_equations.

(** ** The middleware, once more *)

(** X1. A request passes [validateApiKey] exactly when its path is the
    root, or its Authorization header starts with [Bearer ] and the key
    after it, trimmed, starts with [sk-] and is the configured server key
    if one (not empty) is configured; every other request is answered 401. *)
Theorem validateApiKey_passes_iff (API_KEY : option jsstring) (req : Request) :
  (validateApiKey API_KEY req = Next <->
   path req = lit "/"
   \/ exists h,
        authorization req = Some h
        /\ startsWith h (lit "Bearer ") = true
        /\ startsWith (trim (slice_from 7 h)) (lit "sk-") = true
        /\ (forall k, API_KEY = Some k -> k <> [] -> trim (slice_from 7 h) = k))
  /\ (forall status message,
        validateApiKey API_KEY req = Rejected status message -> status = 401).
Proof.
  unfold validateApiKey.
  destruct (str_eqb (path req) (lit "/")) eqn:Ep.
  { apply str_eqb_eq in Ep. split; [tauto|discriminate]. }
  assert (Hp : path req <> lit "/")
    by (intros E; rewrite E, str_eqb_refl in Ep; discriminate).
  destruct (authorization req) as [[|c h]|].
  - split; [|intros ? ? [= <- _]; reflexivity].
    split; [discriminate|]. intros [E|(h & [= <-] & Hb & _)]; [contradiction|].
    discriminate Hb.
  - destruct (startsWith (c :: h) (lit "Bearer ")) eqn:Hb; cbn [negb].
    + cbv zeta.
      destruct API_KEY as [[|x k]|].
      * destruct (startsWith (trim (slice_from 7 (c :: h))) (lit "sk-")) eqn:Hk;
          cbn [negb].
        -- split; [|discriminate]. split; [|reflexivity]. intros _. right.
           exists (c :: h). repeat split; try assumption.
           intros k' [= <-] Hne. contradiction.
        -- split; [|intros ? ? [= <- _]; reflexivity].
           split; [discriminate|].
           intros [E|(h' & [= <-] & _ & Hk' & _)]; [contradiction|congruence].
      * destruct (str_eqb (trim (slice_from 7 (c :: h))) (x :: k)) eqn:Ek;
          cbn [negb].
        -- apply str_eqb_eq in Ek.
           destruct (startsWith (trim (slice_from 7 (c :: h))) (lit "sk-")) eqn:Hk;
             cbn [negb].
           ++ split; [|discriminate]. split; [|reflexivity]. intros _. right.
              exists (c :: h). repeat split; try assumption.
              intros k' [= <-] _. exact Ek.
           ++ split; [|intros ? ? [= <- _]; reflexivity].
              split; [discriminate|].
              intros [E|(h' & [= <-] & _ & Hk' & _)]; [contradiction|congruence].
        -- split; [|intros ? ? [= <- _]; reflexivity].
           split; [discriminate|].
           intros [E|(h' & [= <-] & _ & _ & Hm)]; [contradiction|].
           rewrite (Hm (x :: k) eq_refl ltac:(discriminate)), str_eqb_refl in Ek.
           discriminate Ek.
      * destruct (startsWith (trim (slice_from 7 (c :: h))) (lit "sk-")) eqn:Hk;
          cbn [negb].
        -- split; [|discriminate]. split; [|reflexivity]. intros _. right.
           exists (c :: h). repeat split; try assumption. discriminate.
        -- split; [|intros ? ? [= <- _]; reflexivity].
           split; [discriminate|].
           intros [E|(h' & [= <-] & _ & Hk' & _)]; [contradiction|congruence].
    + split; [|intros ? ? [= <- _]; reflexivity].
      split; [discriminate|].
      intros [E|(h' & [= <-] & Hb' & _)]; [contradiction|congruence].
  - split; [|intros ? ? [= <- _]; reflexivity].
    split; [discriminate|]. intros [E|(h & Hh & _)]; [contradiction|discriminate].
Qed.

(** X2. A configured server key that does not itself start with [sk-]
    locks every path but the root: whatever the Authorization header, the
    answer is 401. *)
Theorem server_key_without_prefix_locks_out (k : jsstring) (req : Request) :
  k <> [] ->
  startsWith k (lit "sk-") = false ->
  path req <> lit "/" ->
  exists message, validateApiKey (Some k) req = Rejected 401 message.
Proof.
  intros Hk Hsk Hp. unfold validateApiKey.
  destruct (str_eqb (path req) (lit "/")) eqn:Ep;
    [apply str_eqb_eq in Ep; contradiction|].
  destruct (authorization req) as [[|c h]|]; [eauto| |eauto].
  destruct (startsWith (c :: h) (lit "Bearer ")); cbn [negb]; [|eauto].
  cbv zeta. destruct k as [|x k]; [contradiction|].
  destruct (str_eqb (trim (slice_from 7 (c :: h))) (x :: k)) eqn:Ek;
    cbn [negb]; [|eauto].
  apply str_eqb_eq in Ek. rewrite Ek, Hsk. cbn [negb]. eauto.
Qed.

(** ** Request ids and digests *)

Lemma hex_digit_lower (v : N) : v < 16 -> is_lower_hex (hex_digit false v) = true.
Proof.
  intros H. unfold is_lower_hex, is_digit, hex_digit.
  destruct (N.ltb_spec v 10).
  - apply orb_true_iff; left. apply andb_true_iff; split; apply N.leb_le; lia.
  - apply orb_true_iff; right. apply andb_true_iff; split; apply N.leb_le; lia.
Qed.

Lemma hex_digit_not_dash (upper : bool) (v : N) : hex_digit upper v <> 45.
Proof.
  unfold hex_digit. destruct (N.ltb_spec v 10); [lia|]. destruct upper; lia.
Qed.

(** The variant digit: [r & 0x3 | 0x8] is 8, 9, 10 or 11. *)
Lemma variant_digit (r : N) : 8 <= N.lor (N.land r 0x3) 0x8 <= 11.
Proof.
  change 0x3 with (N.ones 2). rewrite N.land_ones. change (2 ^ 2) with 4.
  assert (H : r mod 4 < 4) by lia.
  assert (C : r mod 4 = 0 \/ r mod 4 = 1 \/ r mod 4 = 2 \/ r mod 4 = 3) by lia.
  destruct C as [-> | [-> | [-> | ->]]]; cbn; lia.
Qed.

Lemma fill_template_length (template : jsstring) :
  forall random16, List.length (fill_template template random16) = List.length template.
Proof.
  induction template as [|c t IH]; intros rs; [reflexivity|].
  cbn [fill_template]. destruct ((c =? 120) || (c =? 121)); cbn [List.length];
    now rewrite IH.
Qed.

Lemma fill_template_chars (ok : cu -> bool) (template : jsstring) :
  (forall v, v < 16 -> ok (hex_digit false v) = true) ->
  Forall (fun c => c = 120 \/ c = 121 \/ ok c = true) template ->
  forall random16,
    Forall (fun r => r < 16) random16 ->
    Forall (fun c => ok c = true) (fill_template template random16).
Proof.
  intros Hhex Ht. induction Ht as [|c t Hc _ IH]; intros rs Hrs; [constructor|].
  assert (Hhd : hd 0 rs < 16) by (destruct Hrs; cbn; [lia|assumption]).
  assert (Htl : Forall (fun r => r < 16) (tl rs)) by (destruct Hrs; cbn; auto).
  cbn [fill_template].
  destruct (N.eqb_spec c 120) as [->|Hx]; cbn [orb].
  - constructor; [now apply Hhex|now apply IH].
  - destruct (N.eqb_spec c 121) as [->|Hy].
    + constructor; [|now apply IH]. apply Hhex.
      pose proof (variant_digit (hd 0 rs)). lia.
    + constructor; [|now apply IH]. destruct Hc as [?|[?|?]]; congruence.
Qed.

(** A character of the template that is no placeholder stays; an [x] or
    a [y] becomes a digit. *)
Lemma fill_template_nth (template : jsstring) :
  forall (random16 : list N) (i : nat),
    (i < List.length template)%nat ->
    let c := nth i template 0 in
    let c' := nth i (fill_template template random16) 0 in
    (c <> 120 -> c <> 121 -> c' = c)
    /\ (c = 120 -> exists r, c' = hex_digit false r)
    /\ (c = 121 -> exists r, c' = hex_digit false (N.lor (N.land r 0x3) 0x8)).
Proof.
  induction template as [|c t IH]; intros rs i Hi; [cbn in Hi; lia|].
  cbn [fill_template].
  destruct i as [|i].
  - cbn [nth].
    destruct (N.eqb_spec c 120) as [->|Hx]; cbn [orb nth].
    + repeat split; [congruence|eauto|discriminate].
    + destruct (N.eqb_spec c 121) as [->|Hy]; cbn [nth].
      * repeat split; [congruence|discriminate|eauto].
      * repeat split; congruence.
  - cbn [List.length] in Hi.
    destruct ((c =? 120) || (c =? 121)); cbn [nth]; apply IH; lia.
Qed.

(** X3. Whatever [Math.random] gives, a request id has the shape of a
    version 4 UUID: 36 characters, a dash after the 8th, 13th, 18th and
    23rd and nowhere else, the digit 4 in front of the third group, one of
    [8 9 a b] in front of the fourth, and lowercase hexadecimal digits
    elsewhere. *)
Theorem request_id_is_uuid_v4 (random16 : list N) :
  Forall (fun r => r < 16) random16 ->
  List.length (generateRequestId random16) = 36%nat
  /\ Forall (fun c => is_lower_hex c = true \/ c = 45) (generateRequestId random16)
  /\ (forall i, (i < 36)%nat ->
        (nth i (generateRequestId random16) 0 = 45 <-> In i [8; 13; 18; 23]%nat))
  /\ nth 14 (generateRequestId random16) 0 = 52
  /\ In (nth 19 (generateRequestId random16) 0) [56; 57; 97; 98].
Proof.
  intros Hrs. unfold generateRequestId.
  split; [now rewrite fill_template_length|].
  split.
  { apply (Forall_impl (P := fun c => is_lower_hex c || (c =? 45) = true)).
    - intros c Hc. apply orb_true_iff in Hc as [Hc|Hc]; [now left|].
      right. now apply N.eqb_eq.
    - apply (fill_template_chars (fun c => is_lower_hex c || (c =? 45)));
        [ | |exact Hrs].
      + intros v Hv. now rewrite hex_digit_lower.
      + apply Forall_forall. intros c Hc.
        assert (E : (c =? 120) || (c =? 121) || (is_lower_hex c || (c =? 45)) = true)
          by (revert c Hc; apply forallb_forall; reflexivity).
        apply orb_true_iff in E as [E|E]; [|tauto].
        apply orb_true_iff in E as [E|E]; apply N.eqb_eq in E; tauto. }
  set (t := lit "xxxxxxxx-xxxx-4xxx-yxxx-xxxxxxxxxxxx").
  assert (Hlen : List.length t = 36%nat) by reflexivity.
  split.
  { intros i Hi.
    destruct (fill_template_nth t random16 i ltac:(lia)) as (Hsame & Hx & Hy).
    assert (Ht : (nth i t 0 = 45 <-> In i [8; 13; 18; 23]%nat)
                 /\ (nth i t 0 = 45 \/ nth i t 0 = 52 \/ nth i t 0 = 120
                     \/ nth i t 0 = 121)).
    { do 36 (destruct i as [|i];
             [vm_compute; split;
              [split; [intros E; try discriminate E; tauto
                      |intros H;
                       repeat (destruct H as [H|H];
                               [try discriminate H; try reflexivity|]);
                       contradiction]
              |tauto]|]).
      lia. }
    destruct Ht as [Hiff Hcases]. rewrite <- Hiff.
    destruct Hcases as [E|[E|[E|E]]].
    - rewrite Hsame; [tauto|rewrite E; discriminate|rewrite E; discriminate].
    - rewrite Hsame; [tauto|rewrite E; discriminate|rewrite E; discriminate].
    - destruct (Hx E) as [r ->]. rewrite E. split; [|discriminate].
      intros H. now apply hex_digit_not_dash in H.
    - destruct (Hy E) as [r ->]. rewrite E. split; [|discriminate].
      intros H. now apply hex_digit_not_dash in H. }
  split.
  { destruct (fill_template_nth t random16 14 ltac:(lia)) as (Hsame & _ & _).
    rewrite Hsame; [reflexivity|discriminate|discriminate]. }
  destruct (fill_template_nth t random16 19 ltac:(lia)) as (_ & _ & Hy).
  destruct (Hy eq_refl) as [r ->].
  pose proof (variant_digit r) as Hv. unfold hex_digit.
  set (v := N.lor _ _) in *.
  assert (C : v = 8 \/ v = 9 \/ v = 10 \/ v = 11) by lia.
  destruct C as [-> | [-> | [-> | ->]]]; cbn; tauto.
Qed.

Lemma bytes_of_word_octets (n : nat) (w : N) :
  List.length (bytes_of_word n w) = n
  /\ Forall (fun b => b < 256) (bytes_of_word n w).
Proof.
  unfold bytes_of_word. split.
  - now rewrite length_map, length_rev, length_seq.
  - apply Forall_forall. intros b Hb. apply in_map_iff in Hb as (i & <- & _).
    change 0xFF with (N.ones 8). rewrite N.land_ones. change (2 ^ 8) with 256. lia.
Qed.

Lemma flat_map_octets (ws : list N) :
  List.length (flat_map (bytes_of_word 4) ws) = (4 * List.length ws)%nat
  /\ Forall (fun b => b < 256) (flat_map (bytes_of_word 4) ws).
Proof.
  induction ws as [|w ws [IHl IHf]]; [split; [reflexivity|constructor]|].
  cbn [flat_map]. destruct (bytes_of_word_octets 4 w) as [Hl Hf]. split.
  - rewrite length_app, Hl, IHl. cbn [List.length]. lia.
  - apply Forall_app. now split.
Qed.

(** A digest is thirty-two octets. *)
Lemma sha256_octets (msg : list octet) :
  List.length (sha256 msg) = 32%nat /\ Forall (fun b => b < 256) (sha256 msg).
Proof.
  unfold sha256.
  destruct (flat_map_octets
              (sha256_blocks (List.length (words_of_bytes (sha256_pad msg)) / 16)
                 sha256_H0 (words_of_bytes (sha256_pad msg)))) as [Hl Hf].
  split; [|exact Hf]. rewrite Hl, sha256_blocks_length. reflexivity.
Qed.

Lemma hex_of_bytes_shape (bs : list octet) :
  Forall (fun b => b < 256) bs ->
  List.length (hex_of_bytes bs) = (2 * List.length bs)%nat
  /\ Forall (fun c => is_lower_hex c = true) (hex_of_bytes bs).
Proof.
  induction 1 as [|b bs Hb _ [IHl IHf]]; [split; [reflexivity|constructor]|].
  unfold hex_of_bytes in *. cbn [flat_map hex_byte app List.length]. split.
  - rewrite IHl. lia.
  - repeat constructor; try exact IHf; apply hex_digit_lower; lia.
Qed.

Lemma hmac_sha256_octets (key msg : list octet) :
  List.length (hmac_sha256 key msg) = 32%nat
  /\ Forall (fun b => b < 256) (hmac_sha256 key msg).
Proof. unfold hmac_sha256. apply sha256_octets. Qed.

(** X4. [generateHmacSignature] throws, a DataError, exactly when the key
    is the empty string; otherwise it returns 64 lowercase hexadecimal
    digits, whatever the data. *)
Theorem hmac_signature_shape (key data : jsstring) :
  match generateHmacSignature key data with
  | Ok s =>
      key <> []
      /\ List.length s = 64%nat
      /\ Forall (fun c => is_lower_hex c = true) s
  | Throw e => key = [] /\ e = DataError
  end.
Proof.
  destruct key as [|c key]; [cbn; tauto|].
  rewrite generateHmacSignature_ok by discriminate.
  split; [discriminate|].
  destruct (hmac_sha256_octets (TextEncoder_encode (c :: key))
              (TextEncoder_encode data)) as [Hl Hf].
  destruct (hex_of_bytes_shape _ Hf) as [Hl' Hf'].
  split; [|exact Hf']. rewrite Hl', Hl. reflexivity.
Qed.

(** ** Trimming *)

Lemma trimStart_split (s : jsstring) :
  exists ws, s = ws ++ trimStart s /\ Forall (fun c => is_js_space c = true) ws.
Proof.
  induction s as [|c s (ws & E & F)]; [exists []; split; [reflexivity|constructor]|].
  cbn [trimStart]. destruct (is_js_space c) eqn:Hc.
  - exists (c :: ws). split; [cbn; congruence|now constructor].
  - exists []. split; [reflexivity|constructor].
Qed.

Lemma trimStart_head (s : jsstring) (c : cu) (r : jsstring) :
  trimStart s = c :: r -> is_js_space c = false.
Proof.
  induction s as [|x s IH]; [discriminate|].
  cbn [trimStart]. destruct (is_js_space x) eqn:Hx; [exact IH|].
  intros [= <- _]. exact Hx.
Qed.

Lemma trimStart_fixed (s : jsstring) :
  match s with [] => True | c :: _ => is_js_space c = false end ->
  trimStart s = s.
Proof. destruct s as [|c s]; [reflexivity|]. cbn. now intros ->. Qed.

Lemma trimStart_idempotent (s : jsstring) : trimStart (trimStart s) = trimStart s.
Proof.
  apply trimStart_fixed. destruct (trimStart s) as [|c r] eqn:E; [exact I|].
  eapply trimStart_head, E.
Qed.

(** Trimming twice is trimming once. *)
Lemma trim_idempotent (s : jsstring) : trim (trim s) = trim s.
Proof.
  unfold trim at 2 3. set (a := trimStart s). set (b := trimStart (rev a)).
  assert (Hb : trimStart b = b) by apply trimStart_idempotent.
  assert (Ht : trimStart (rev b) = rev b).
  { apply trimStart_fixed. destruct (rev b) as [|c r] eqn:E; [exact I|].
    destruct (trimStart_split (rev a)) as (ws & Ea & _). fold b in Ea.
    apply (f_equal (@rev cu)) in Ea.
    rewrite rev_involutive, rev_app_distr, E in Ea. cbn [app] in Ea.
    eapply trimStart_head. unfold a in Ea. exact Ea. }
  unfold trim. now rewrite Ht, rev_involutive, Hb.
Qed.

(** ** Text that the encoders leave as it is *)

Lemma code_points_ascii (s : jsstring) :
  Forall (fun c => c < 128) s -> code_points s = map Some s.
Proof.
  induction 1 as [|c s Hc _ IH]; [reflexivity|].
  cbn [code_points map]. unfold is_high_surrogate, is_low_surrogate.
  destruct (N.leb_spec 0xD800 c); [lia|]. destruct (N.leb_spec 0xDC00 c); [lia|].
  cbn [andb]. now rewrite IH.
Qed.

Lemma TextEncoder_encode_ascii (s : jsstring) :
  Forall (fun c => c < 128) s -> TextEncoder_encode s = s.
Proof.
  intros H. unfold TextEncoder_encode. rewrite code_points_ascii by exact H.
  induction H as [|c s Hc _ IH]; [reflexivity|].
  cbn [map flat_map]. rewrite IH. unfold utf8_of_cp.
  now destruct (N.ltb_spec c 0x80); [|lia].
Qed.

Lemma form_safe_ascii (c : cu) : form_safe c = true -> c < 128 /\ c <> 32.
Proof.
  unfold form_safe, is_alnum. cbn [existsb]. intros H.
  repeat match type of H with
         | context [?a =? ?b] => destruct (N.eqb_spec a b); try lia
         | context [?a <=? ?b] => destruct (N.leb_spec a b); try lia
         end; discriminate H.
Qed.

Lemma form_encode_safe (s : jsstring) :
  Forall (fun c => form_safe c = true) s -> form_encode s = s.
Proof.
  intros H. unfold form_encode.
  rewrite TextEncoder_encode_ascii
    by (eapply Forall_impl; [|exact H]; intros c Hc; now apply form_safe_ascii).
  induction H as [|c s Hc _ IH]; [reflexivity|].
  cbn [flat_map]. rewrite IH. unfold form_byte.
  destruct (form_safe_ascii c Hc) as [_ Hne].
  destruct (N.eqb_spec c 32); [contradiction|].
  unfold form_safe in Hc. now rewrite Hc.
Qed.

Lemma is_digit_form_safe (c : cu) : is_digit c = true -> form_safe c = true.
Proof.
  intros H. apply is_digit_bounds in H. unfold form_safe, is_alnum.
  destruct (N.leb_spec 48 c); [|lia]. destruct (N.leb_spec c 57); [|lia].
  reflexivity.
Qed.

Lemma Z_toString_form_safe (z : Z) :
  Forall (fun c => form_safe c = true) (Z_toString z).
Proof.
  assert (H : Forall (fun c => form_safe c = true) (N_toString (Z.abs_N z))).
  { eapply Forall_impl; [|apply decimal_digits_all; constructor].
    intros c. apply is_digit_form_safe. }
  unfold Z_toString. destruct (z <? 0)%Z; [constructor; [reflexivity|]|]; exact H.
Qed.

Lemma generateRequestId_form_safe (random16 : list N) :
  Forall (fun r => r < 16) random16 ->
  Forall (fun c => form_safe c = true) (generateRequestId random16).
Proof.
  intros Hrs. unfold generateRequestId.
  apply (fill_template_chars form_safe); [| |exact Hrs].
  - intros v Hv. unfold hex_digit, form_safe, is_alnum.
    destruct (N.ltb_spec v 10).
    + destruct (N.leb_spec 48 (48 + v)); [|lia].
      destruct (N.leb_spec (48 + v) 57); [|lia]. reflexivity.
    + destruct (N.leb_spec 97 (87 + v)); [|lia].
      destruct (N.leb_spec (87 + v) 122); [|lia]. cbn. now rewrite !orb_true_r.
  - apply Forall_forall. intros c Hc.
    assert (E : (c =? 120) || (c =? 121) || form_safe c = true)
      by (revert c Hc; apply forallb_forall; reflexivity).
    apply orb_true_iff in E as [E|E]; [|tauto].
    apply orb_true_iff in E as [E|E]; apply N.eqb_eq in E; tauto.
Qed.

(** ** The signer, once more *)

Section SignerShape.
Context {RT : Runtime}.

Lemma generateHmacSignature_shape (key data s : jsstring) :
  generateHmacSignature key data = Ok s ->
  List.length s = 64%nat /\ Forall (fun c => is_lower_hex c = true) s.
Proof.
  destruct key as [|c key]; [discriminate|].
  rewrite generateHmacSignature_ok by discriminate. intros [= <-].
  destruct (hmac_sha256_octets (TextEncoder_encode (c :: key))
              (TextEncoder_encode data)) as [Hl Hf].
  destruct (hex_of_bytes_shape _ Hf) as [Hl' Hf'].
  split; [|exact Hf']. rewrite Hl', Hl. reflexivity.
Qed.

(** The query parameters, once the user id and the token have string
    forms. *)
Lemma generateUrlParams_query (ts rid u t : jsstring) (uid tok : jsval) :
  to_string uid = Ok u ->
  to_string tok = Ok t ->
  generateUrlParams
    ([(lit "timestamp", VStr ts); (lit "requestId", VStr rid);
      (lit "user_id", uid)] ++
     [(lit "version", VStr (lit "0.0.1"));
      (lit "platform", VStr (lit "web"));
      (lit "token", tok);
      (lit "user_agent",
       VStr (lit "Mozilla/5.0 (Windows NT 10.0; Win64; x64) Chrome/120.0.0.0"));
      (lit "language", VStr (lit "en-US"));
      (lit "screen_resolution", VStr (lit "1920x1080"));
      (lit "viewport_size", VStr (lit "1920x1080"));
      (lit "timezone", VStr (lit "Europe/Paris"));
      (lit "timezone_offset", VStr (lit "-60"))]) =
  Ok (URLSearchParams_toString
        [(lit "timestamp", ts); (lit "requestId", rid); (lit "user_id", u);
         (lit "version", lit "0.0.1"); (lit "platform", lit "web");
         (lit "token", t);
         (lit "user_agent",
          lit "Mozilla/5.0 (Windows NT 10.0; Win64; x64) Chrome/120.0.0.0");
         (lit "language", lit "en-US");
         (lit "screen_resolution", lit "1920x1080");
         (lit "viewport_size", lit "1920x1080");
         (lit "timezone", lit "Europe/Paris");
         (lit "timezone_offset", lit "-60")]).
Proof.
  intros Hu Ht. unfold generateUrlParams. cbn [app entries_toString].
  rewrite Hu, Ht.
  repeat match goal with
         | |- context [to_string (VStr ?x)] =>
             change (to_string (VStr x)) with (@Ok jsstring x)
         end.
  reflexivity.
Qed.

(** The user id has a string form when the sorted metadata have. *)
Lemma sorted_payload_user (ts rid : jsstring) (uid : jsval)
    (sorted : list (jsstring * jsstring)) :
  entries_toString
    [(lit "requestId", VStr rid); (lit "timestamp", VStr ts);
     (lit "user_id", uid)] = Ok sorted ->
  exists u, to_string uid = Ok u.
Proof.
  cbn [entries_toString].
  repeat match goal with
         | |- context [to_string (VStr ?x)] =>
             change (to_string (VStr x)) with (@Ok jsstring x)
         end.
  cbn [bind]. destruct (to_string uid) as [u|e]; [eauto|discriminate].
Qed.

(** X5. The signature and the timestamp do not depend on the bearer
    token: two tokens that have string forms give the same signature and
    the same timestamp, or the same exception. *)
Theorem signature_ignores_token (w : World) (prompt salt t t' : jsstring)
    (token token' user_id : jsval) :
  to_string token = Ok t ->
  to_string token' = Ok t' ->
  map_result (fun r => (signature r, timestamp r))
    (generateZaSignature w prompt token user_id salt) =
  map_result (fun r => (signature r, timestamp r))
    (generateZaSignature w prompt token' user_id salt).
Proof.
  intros Ht Ht'. unfold generateZaSignature.
  destruct (generateHmacSignature salt _) as [w_key|e]; [|reflexivity].
  cbn [bind]. rewrite sorted_payload.
  destruct (entries_toString _) as [sorted|e] eqn:Es; [|reflexivity].
  cbn [bind]. destruct (sorted_payload_user _ _ _ _ Es) as [u Hu].
  destruct (base64Encode (trim prompt)) as [b64|e]; [|reflexivity].
  cbn [bind]. destruct (generateHmacSignature w_key _) as [sig|e]; [|reflexivity].
  cbn [bind].
  match goal with
  | |- context [generateUrlParams ?l] =>
      destruct (generateUrlParams l) as [enc|e] eqn:E1;
        [clear E1
        |discriminate
           (eq_trans (eq_sym E1) (generateUrlParams_query _ _ _ _ _ _ Hu Ht))]
  end.
  match goal with
  | |- context [generateUrlParams ?l] =>
      destruct (generateUrlParams l) as [enc'|e] eqn:E2;
        [clear E2
        |discriminate
           (eq_trans (eq_sym E2) (generateUrlParams_query _ _ _ _ _ _ Hu Ht'))]
  end.
  reflexivity.
Qed.

(** X6. White space around the prompt does not count: signing a prompt
    and signing the prompt trimmed give the same result. *)
Theorem signature_ignores_outer_space (w : World) (prompt salt : jsstring)
    (token user_id : jsval) :
  generateZaSignature w (trim prompt) token user_id salt =
  generateZaSignature w prompt token user_id salt.
Proof. unfold generateZaSignature. now rewrite trim_idempotent. Qed.

(** X7. The query string of a signed request, for a token and a user id
    that are strings: the parameters in the order [timestamp],
    [requestId], [user_id], the nine fields of the browser fingerprint
    with the token as sixth parameter, and [signature_timestamp] at the
    end, form-encoded. *)
Theorem signed_query_string (w : World) (prompt salt tok uid : jsstring)
    (r : ZaSignature) :
  Forall (fun x => x < 16) (random_request_id w) ->
  generateZaSignature w prompt (VStr tok) (VStr uid) salt = Ok r ->
  urlParams r =
  lit "timestamp=" ++ Z_toString (now_signing w)
  ++ lit "&requestId=" ++ generateRequestId (random_request_id w)
  ++ lit "&user_id=" ++ form_encode uid
  ++ lit "&version=0.0.1&platform=web&token=" ++ form_encode tok
  ++ lit "&user_agent=Mozilla%2F5.0+%28Windows+NT+10.0%3B+Win64%3B+x64%29+Chrome%2F120.0.0.0"
  ++ lit "&language=en-US&screen_resolution=1920x1080&viewport_size=1920x1080"
  ++ lit "&timezone=Europe%2FParis&timezone_offset=-60&signature_timestamp="
  ++ Z_toString (now_signing w).
Proof.
  intros Hrs. unfold generateZaSignature.
  destruct (generateHmacSignature salt _) as [w_key|e]; [|discriminate].
  cbn [bind]. destruct (entries_toString _) as [sorted|e]; [|discriminate].
  cbn [bind]. destruct (base64Encode (trim prompt)) as [b64|e]; [|discriminate].
  cbn [bind]. destruct (generateHmacSignature w_key _) as [sig|e]; [|discriminate].
  cbn [bind].
  destruct (generateUrlParams _) as [enc|e] eqn:E; [|discriminate].
  cbn [bind]. intros [= <-]. cbn [urlParams].
  pose proof (eq_trans (eq_sym E)
                (generateUrlParams_query (Z_toString (now_signing w))
                   (generateRequestId (random_request_id w)) uid tok
                   (VStr uid) (VStr tok) eq_refl eq_refl)) as Henc.
  injection Henc as ->.
  cbn [URLSearchParams_toString map join fst snd].
  rewrite (form_encode_safe (Z_toString (now_signing w)))
    by apply Z_toString_form_safe.
  rewrite (form_encode_safe (generateRequestId (random_request_id w)))
    by (apply generateRequestId_form_safe; exact Hrs).
  generalize (Z_toString (now_signing w)) as ts.
  generalize (generateRequestId (random_request_id w)) as rid.
  generalize (form_encode uid) as u. generalize (form_encode tok) as t.
  intros t u rid ts. rewrite <- !app_assoc. vm_compute. reflexivity.
Qed.

End SignerShape.

(** ** The stream translator, once more *)

Section StreamShape.
Context {RT : Runtime}.

Lemma try_payload_truthy (full payload full' : jsstring) (out : list jsval) :
  try_payload full payload = Some (full', out) ->
  Forall (fun v => truthy v = true) out.
Proof.
  unfold try_payload. destruct (JSON_parse payload) as [j|]; [|discriminate].
  destruct (delta_of j) as [[chunk|]|] eqn:Hd; [| |discriminate].
  - destruct (toString chunk); [|discriminate]. intros [= _ <-].
    constructor; [|constructor]. eapply delta_of_truthy, Hd.
  - intros [= _ <-]. constructor.
Qed.

Lemma on_line_truthy (full line full' : jsstring) (out : list jsval) :
  on_line full line = LNext full' out -> Forall (fun v => truthy v = true) out.
Proof.
  unfold on_line. destruct (startsWith line (lit "data: "));
    [|intros [= _ <-]; constructor].
  destruct (str_eqb _ _); [discriminate|].
  destruct (try_payload full _) as [[f o]|] eqn:E; [|intros [= _ <-]; constructor].
  intros [= _ <-]. eapply try_payload_truthy, E.
Qed.

Lemma for_lines_truthy (lines : list jsstring) :
  forall (full full' : jsstring) (out : list jsval) (r : bool),
    for_lines full lines = (full', out, r) ->
    Forall (fun v => truthy v = true) out.
Proof.
  induction lines as [|l lines IH]; intros full full' out r H.
  - injection H as _ <- _. constructor.
  - cbn [for_lines] in H. destruct (on_line full l) as [|f1 o1] eqn:E.
    + injection H as _ <- _. constructor.
    + destruct (for_lines f1 lines) as [[f2 o2] r2] eqn:E2.
      injection H as _ <- _. apply Forall_app. split.
      * eapply on_line_truthy, E.
      * eapply IH, E2.
Qed.

(** X8. Every chunk that [chatStream] yields is truthy: the generator
    never hands out an empty string, [null], [undefined], [false] or a
    zero. *)
Theorem yields_are_truthy (w : World) (session : ZChatSession) (prompt : jsstring) :
  Forall (fun v => truthy v = true) (yields (chatStream w session prompt)).
Proof.
  unfold chatStream.
  destruct (generateZaSignature _ _ _ _ _); [|constructor].
  destruct (fetch_chat w) as [|ok status body]; [constructor|].
  destruct ok; [|constructor]. cbn [negb].
  destruct body as [[cs e]|]; [|constructor].
  rewrite stream_translator_text.
  destruct (for_lines [] (complete_lines (decoded cs))) as [[f o] r] eqn:E.
  cbn [ended yields]. eapply for_lines_truthy, E.
Qed.

Lemma on_line_other (full line : jsstring) :
  startsWith line (lit "data: ") = false -> on_line full line = LNext full [].
Proof. intros H. unfold on_line. now rewrite H. Qed.

(** X9. A complete line that does not start with [data: ] (an empty
    line, a comment, an [event:] field, [data:] without the space) is
    ignored: the translator and [chatStream] give the result that they
    give on the upstream text without that line. *)
Theorem other_lines_are_ignored (w : World) (session : ZChatSession)
    (prompt : jsstring) (cs cs' : list (list Byte.byte)) (e : stream_end)
    (before : list jsstring) (line post : jsstring) :
  Forall is_line before ->
  is_line line ->
  startsWith line (lit "data: ") = false ->
  decoded cs = unlines before ++ line ++ NL :: post ->
  decoded cs' = unlines before ++ post ->
  stream_translator {| chunks := cs; ending := e |} =
    stream_translator {| chunks := cs'; ending := e |}
  /\ chatStream (answering w {| chunks := cs; ending := e |}) session prompt =
     chatStream (answering w {| chunks := cs'; ending := e |}) session prompt.
Proof.
  intros Hb Hl Hd Ht Ht'.
  assert (H : stream_translator {| chunks := cs; ending := e |} =
              stream_translator {| chunks := cs'; ending := e |}).
  { rewrite !stream_translator_text, Ht, Ht'.
    rewrite !complete_lines_unlines by exact Hb.
    rewrite complete_lines_cons by exact Hl.
    now rewrite for_lines_skip by (intros f; now apply on_line_other). }
  split; [exact H|]. now apply chatStream_answering.
Qed.

Lemma decoded_app (cs1 cs2 : list (list Byte.byte)) :
  exists more, decoded (cs1 ++ cs2) = decoded cs1 ++ more.
Proof.
  unfold decoded. rewrite concat_app, decode_app.
  destruct (decode new_TextDecoder (List.concat cs1)) as [d1 t1].
  destruct (decode d1 (List.concat cs2)) as [d2 t2]. now exists t2.
Qed.

(** X10. The translator is forward-only: what it has yielded, and the
    assistant text it has gathered, after some chunks is a prefix of what
    it yields and gathers when more chunks follow; and once it has
    returned at [[DONE]], more chunks change nothing. *)
Theorem later_chunks_only_append (cs1 cs2 : list (list Byte.byte))
    (e : stream_end) :
  let early := stream_translator {| chunks := cs1; ending := Closed |} in
  let late := stream_translator {| chunks := cs1 ++ cs2; ending := e |} in
  prefix_of (fst (fst early)) (fst (fst late))
  /\ prefix_of (snd (fst early)) (snd (fst late))
  /\ (snd early = Returned -> late = early).
Proof.
  intros early late. subst early late. rewrite !stream_translator_text.
  destruct (decoded_app cs1 cs2) as [more ->].
  rewrite complete_lines_app, for_lines_app.
  destruct (for_lines [] (complete_lines (decoded cs1))) as [[f1 o1] r1] eqn:E1.
  destruct r1.
  - cbn [ended fst snd]. repeat split; exists []; now rewrite app_nil_r.
  - destruct (for_lines f1 _) as [[f2 o2] r2] eqn:E2. cbn [ended fst snd].
    destruct (for_lines_join _ _ _ _ _ E2) as (s & _ & ->).
    repeat split; [now exists s|now exists o2|discriminate].
Qed.


(** X12. When the upstream call does not give a body to read (the fetch
    is rejected, the status is not ok, or the body is null) the generator
    throws before it yields anything, and the transcript has gained the
    user entry and nothing else. *)
Theorem no_body_no_delta (w : World) (session : ZChatSession) (prompt : jsstring) :
  fetch_chat w = NetworkError
  \/ (exists status body, fetch_chat w = Response false status body)
  \/ (exists status, fetch_chat w = Response true status None) ->
  chatStream w session prompt =
  {| yields := [];
     outcome := Thrown;
     session_after :=
       push_message session {| role := lit "user"; content := prompt |} |}.
Proof.
  intros H. unfold chatStream.
  destruct (generateZaSignature _ _ _ _ _); [|reflexivity].
  destruct H as [-> | [(status & body & ->) | (status & ->)]]; reflexivity.
Qed.

End StreamShape.

(** ** The session, once more *)

Section SessionShape.
Context {RT : Runtime}.

Lemma startsWith_prefix (s p : jsstring) :
  startsWith s p = true -> exists r, s = p ++ r.
Proof.
  revert s; induction p as [|y p IH]; intros s H.
  - now exists s.
  - destruct s as [|x s]; [discriminate|]. cbn [startsWith] in H.
    apply andb_true_iff in H as [Hx Hs]. apply N.eqb_eq in Hx as ->.
    destruct (IH _ Hs) as [r ->]. now exists r.
Qed.

Lemma take_digits_split (s : jsstring) :
  s = fst (take_digits s) ++ snd (take_digits s)
  /\ Forall (fun c => is_digit c = true) (fst (take_digits s)).
Proof.
  induction s as [|c s [IH1 IH2]]; [split; [reflexivity|constructor]|].
  cbn [take_digits]. destruct (is_digit c) eqn:Hc.
  - destruct (take_digits s) as [d r]. cbn [fst snd] in *. split.
    + cbn [app]. congruence.
    + now constructor.
  - split; [reflexivity|constructor].
Qed.

(** What the pattern matches at the start of a text: [prod-fe-] and three
    groups of digits, none of them empty, with dots between. *)
Lemma match_version_here_shape (s v : jsstring) :
  match_version_here s = Some v ->
  (exists d1 d2 d3,
     v = lit "prod-fe-" ++ d1 ++ [46] ++ d2 ++ [46] ++ d3
     /\ d1 <> [] /\ d2 <> [] /\ d3 <> []
     /\ Forall (fun c => is_digit c = true) (d1 ++ d2 ++ d3))
  /\ exists after, s = v ++ after.
Proof.
  unfold match_version_here.
  destruct (startsWith s (lit "prod-fe-")) eqn:Hs; [|discriminate].
  assert (Es : s = lit "prod-fe-" ++ skipn 8 s).
  { destruct (startsWith_prefix _ _ Hs) as [r ->]. reflexivity. }
  destruct (take_digits_split (skipn 8 s)) as [E1 F1].
  destruct (take_digits (skipn 8 s)) as [[|x1 d1] [|dot1 r1]]; try discriminate.
  destruct (take_digits_split r1) as [E2 F2].
  destruct (take_digits r1) as [[|x2 d2] [|dot2 r2]]; try discriminate.
  destruct (take_digits_split r2) as [E3 F3].
  destruct (take_digits r2) as [[|x3 d3] r3]; try discriminate.
  destruct (N.eqb_spec dot1 46) as [->|]; [|discriminate].
  destruct (N.eqb_spec dot2 46) as [->|]; [|discriminate].
  cbn [andb fst snd] in *. intros [= <-]. split.
  - exists (x1 :: d1), (x2 :: d2), (x3 :: d3).
    repeat split; try discriminate.
    apply Forall_app; split; [exact F1|]. apply Forall_app; now split.
  - exists r3. rewrite Es at 1. rewrite E1, E2, E3. cbn.
    do 9 f_equal. rewrite <- app_assoc. cbn. do 2 f_equal.
    rewrite <- app_assoc. reflexivity.
Qed.

Lemma match_version_found (html : jsstring) :
  forall v, match_version html = Some v ->
  exists before after, html = before ++ v ++ after
                       /\ match_version_here (v ++ after) = Some v.
Proof.
  induction html as [|c html IH]; intros v.
  - cbn [match_version]. destruct (match_version_here []) eqn:E; [|discriminate].
    intros [= <-]. destruct (match_version_here_shape _ _ E) as [_ [after Ea]].
    exists [], after. split; [exact Ea|]. now rewrite <- Ea.
  - cbn [match_version]. destruct (match_version_here (c :: html)) eqn:E.
    + intros [= <-]. destruct (match_version_here_shape _ _ E) as [_ [after Ea]].
      exists [], after. split; [exact Ea|]. now rewrite <- Ea.
    + intros H. destruct (IH v H) as (before & after & -> & Hm).
      exists (c :: before), after. split; [reflexivity|exact Hm].
Qed.

Lemma scraped_salt (w : World) :
  fst (scrapeConfig w) = lit "key-@@@@)))()((9))-xxxx&&&%%%%%".
Proof.
  unfold scrapeConfig.
  destruct (fetch_landing w) as [|[|] status [html|]]; try reflexivity.
  now destruct (match_version html).
Qed.

(** X13. [scrapeConfig] always answers: the salt is the fixed key, and the
    version is either the default or a text found in the landing page, of
    the shape [prod-fe-<digits>.<digits>.<digits>]. *)
Theorem scraped_version_shape (w : World) :
  fst (scrapeConfig w) = lit "key-@@@@)))()((9))-xxxx&&&%%%%%"
  /\ (snd (scrapeConfig w) = lit "prod-fe-1.0.185"
      \/ exists status html d1 d2 d3,
           fetch_landing w = Response true status (Some html)
           /\ occurs_in (snd (scrapeConfig w)) html
           /\ snd (scrapeConfig w) = lit "prod-fe-" ++ d1 ++ [46] ++ d2 ++ [46] ++ d3
           /\ d1 <> [] /\ d2 <> [] /\ d3 <> []
           /\ Forall (fun c => is_digit c = true) (d1 ++ d2 ++ d3)).
Proof.
  unfold scrapeConfig.
  destruct (fetch_landing w) as [|[|] status [html|]]; try (cbn; tauto).
  destruct (match_version html) as [v|] eqn:E; [|cbn; tauto].
  cbn [fst snd]. split; [reflexivity|]. right.
  destruct (match_version_found _ _ E) as (before & after & Eh & Hm).
  destruct (match_version_here_shape _ _ Hm) as [(d1 & d2 & d3 & Ev & Hd) _].
  exists status, html, d1, d2, d3. repeat split; try tauto.
  now exists before, after.
Qed.

(** The claims of the token touch the user id and the display name and
    nothing else; the name they give holds no [@]. *)
Lemma decode_claims_fields (s : ZChatSession) :
  let s' := fst (decode_claims s) in
  token s' = token s /\ chat_id s' = chat_id s /\ messages s' = messages s
  /\ model s' = model s /\ use_web_search s' = use_web_search s
  /\ use_thinking s' = use_thinking s /\ use_image_gen s' = use_image_gen s
  /\ use_preview_mode s' = use_preview_mode s /\ salt_key s' = salt_key s
  /\ fe_version s' = fe_version s
  /\ (user_name s' = user_name s \/ exists e, user_name s' = take_until 64 e).
Proof.
  unfold decode_claims.
  destruct (token s) as [| |b|n|t|l|f] eqn:Et; try (cbn; rewrite Et; tauto).
  destruct (Nat.eqb (List.length (split_on 46 t)) 3); [|cbn; rewrite Et; tauto].
  destruct (base64Decode _) as [text|e]; [|cbn; rewrite Et; tauto].
  destruct (JSON_parse text) as [payload|]; [|cbn; rewrite Et; tauto].
  destruct (get payload (lit "id")) as [id|]; [|cbn; rewrite Et; tauto].
  destruct (get payload (lit "email")) as [email|]; [|cbn; rewrite Et; tauto].
  destruct (js_or email (VStr (lit "Guest"))) as [| |b|n|e|l|f];
    try (cbn; rewrite Et; tauto).
  set (s2 := set_user_name (set_user_id s (js_or id (VStr [])))
               (hd [] (split_on 64 e))).
  assert (Hn : fst (match user_id s2 with
                    | VStr _ => (s2, @None exn)
                    | _ => (s2, Some TypeError)
                    end) = s2)
    by (destruct (user_id s2); reflexivity).
  rewrite Hn. cbn. rewrite Et. repeat split. right. exists e. apply hd_split_on.
Qed.

Lemma take_until_free (sep : cu) (s : jsstring) : ~ In sep (take_until sep s).
Proof.
  induction s as [|c s IH]; [intros []|].
  cbn [take_until]. destruct (N.eqb_spec c sep); [intros []|].
  intros [E|H]; [congruence|contradiction].
Qed.

(** X14. Whatever the upstream answers, [initializeZChat] returns a fresh
    session: an empty transcript, the model [glm-4.7], the four feature
    flags off, the fixed salt, the conversation id drawn for it, and a
    display name that holds no [@]. *)
Theorem fresh_session (w : World) :
  let s := initializeZChat w in
  messages s = []
  /\ model s = lit "glm-4.7"
  /\ use_web_search s = false /\ use_thinking s = false
  /\ use_image_gen s = false /\ use_preview_mode s = false
  /\ salt_key s = lit "key-@@@@)))()((9))-xxxx&&&%%%%%"
  /\ chat_id s = generateRequestId (random_chat_id w)
  /\ ~ In 64 (user_name s).
Proof.
  intros s. subst s. unfold initializeZChat.
  pose proof (scraped_salt w) as Hsalt.
  destruct (scrapeConfig w) as [salt fe]. cbn [fst] in Hsalt. subst salt.
  assert (Hguest : ~ In 64 (lit "Guest"))
    by (cbn; intros H; repeat (destruct H as [H|H]; [discriminate H|]); exact H).
  assert (Hdefault : forall t,
    let s0 :=
      {| token := t; user_id := VStr [];
         chat_id := generateRequestId (random_chat_id w);
         messages := []; model := lit "glm-4.7";
         use_web_search := false; use_thinking := false;
         use_image_gen := false; use_preview_mode := false;
         user_name := lit "Guest";
         salt_key := lit "key-@@@@)))()((9))-xxxx&&&%%%%%";
         fe_version := fe |} in
    messages s0 = [] /\ model s0 = lit "glm-4.7"
    /\ use_web_search s0 = false /\ use_thinking s0 = false
    /\ use_image_gen s0 = false /\ use_preview_mode s0 = false
    /\ salt_key s0 = lit "key-@@@@)))()((9))-xxxx&&&%%%%%"
    /\ chat_id s0 = generateRequestId (random_chat_id w)
    /\ ~ In 64 (user_name s0))
    by (intros t; repeat split; exact Hguest).
  destruct (obtain_token w) as [t|e]; [|apply Hdefault].
  destruct (truthy t); [|apply Hdefault].
  match goal with
  | |- context [decode_claims ?s0] =>
      destruct (decode_claims_fields s0)
        as (_ & H1 & H2 & H3 & H4 & H5 & H6 & H7 & H8 & _ & H10)
  end.
  cbv zeta in *. rewrite H1, H2, H3, H4, H5, H6, H7, H8.
  repeat split.
  destruct H10 as [-> | [e ->]]; [exact Hguest|apply take_until_free].
Qed.

End SessionShape.

(** ** Tokens that cannot be read *)

Section TokenShape.
Context {RT : Runtime}.

Lemma b64_values_padded (m : jsstring) : b64_values (m ++ [61; 61]) = None.
Proof.
  induction m as [|c m IH]; [reflexivity|].
  cbn [app b64_values]. rewrite IH. now destruct (b64_value c).
Qed.

(** With [==] appended, only a text of length 2 modulo 4 (white space not
    counted) is base64 for [atob]. *)
Lemma atob_padded (mid b : jsstring) :
  atob (mid ++ lit "==") = Ok b ->
  (List.length (without_whitespace mid) mod 4 = 2)%nat.
Proof.
  unfold atob.
  replace (filter (fun c => negb (is_ascii_whitespace c)) (mid ++ lit "=="))
    with (without_whitespace mid ++ [61; 61])
    by (unfold without_whitespace; now rewrite filter_app).
  set (m := without_whitespace mid).
  destruct (Nat.eqb_spec (List.length (m ++ [61; 61]) mod 4) 0) as [E|E].
  - intros _. rewrite length_app in E. cbn [List.length] in E.
    pose proof (Nat.div_mod_eq (List.length m) 4) as Hdm.
    assert (Hr : (List.length m mod 4 < 4)%nat)
      by (apply Nat.mod_upper_bound; discriminate).
    revert E Hdm Hr. generalize (List.length m mod 4)%nat as r.
    generalize (List.length m / 4)%nat as q. intros q r E Hdm Hr.
    rewrite Hdm in E.
    replace (4 * q + r + 2)%nat with ((r + 2) + q * 4)%nat in E by lia.
    rewrite Nat.Div0.mod_add in E.
    do 4 (destruct r as [|r]; [try discriminate E; try reflexivity|]). lia.
  - destruct (Nat.eqb_spec (List.length (m ++ [61; 61]) mod 4) 1); [discriminate|].
    now rewrite b64_values_padded.
Qed.

(** X15. The identity of a token is lost whenever its middle segment,
    white space not counted, has a length other than 2 modulo 4: appending
    [==] then gives no base64, the decoding throws, and the session keeps
    the token with an empty user id and the name [Guest]. *)
Theorem segment_length_decides_decoding (w : World) (t a mid c : jsstring) :
  obtain_token w = Ok (VStr t) ->
  split_on 46 t = [a; mid; c] ->
  (List.length (without_whitespace mid) mod 4 <> 2)%nat ->
  (exists e, base64Decode (mid ++ lit "==") = Throw e)
  /\ token (initializeZChat w) = VStr t
  /\ user_id (initializeZChat w) = VStr []
  /\ user_name (initializeZChat w) = lit "Guest".
Proof.
  intros Hobt Hsplit Hlen.
  assert (Hthrow : exists e, base64Decode (mid ++ lit "==") = Throw e).
  { unfold base64Decode. destruct (atob (mid ++ lit "==")) as [b|e] eqn:E.
    - apply atob_padded in E. contradiction.
    - cbn [bind]. eauto. }
  split; [exact Hthrow|]. destruct Hthrow as [e He].
  unfold initializeZChat. destruct (scrapeConfig w) as [salt fe]. rewrite Hobt.
  assert (Htr : truthy (@VStr Number t) = true)
    by (destruct t; [discriminate Hsplit|reflexivity]).
  rewrite Htr. unfold decode_claims. cbn [token set_token].
  rewrite Hsplit. cbn [List.length Nat.eqb nth]. rewrite He. cbn. auto.
Qed.

End TokenShape.

(** ** The endpoints *)

Section EndpointShape.
Context {RT : Runtime}.




Lemma filter_template_length (template : jsstring) :
  forall random16,
    Forall (fun c => c = 120 \/ c = 121 -> True) template ->
    List.length (filter (fun c => negb (c =? 45)) (fill_template template random16)) =
    List.length (filter (fun c => negb (c =? 45)) template).
Proof.
  induction template as [|c t IH]; intros rs _; [reflexivity|].
  assert (Ht : Forall (fun c => c = 120 \/ c = 121 -> True) t)
    by (apply Forall_forall; auto).
  cbn [fill_template].
  destruct (N.eqb_spec c 120) as [->|Hx]; cbn [orb].
  - cbn [filter]. destruct (N.eqb_spec (hex_digit false (hd 0 rs)) 45) as [E|_];
      [now apply hex_digit_not_dash in E|].
    cbn [negb N.eqb Pos.eqb List.length]. now rewrite IH.
  - destruct (N.eqb_spec c 121) as [->|Hy].
    + cbn [filter].
      destruct (N.eqb_spec (hex_digit false (N.lor (N.land (hd 0 rs) 3) 8)) 45)
        as [E|_]; [now apply hex_digit_not_dash in E|].
      cbn [negb N.eqb Pos.eqb List.length]. now rewrite IH.
    + cbn [filter]. destruct (negb (c =? 45)); cbn [List.length]; now rewrite IH.
Qed.

(** The identifier of a response: [chatcmpl-] and 32 characters, none of
    them a dash. *)
Lemma response_id_shape (random16 : list N) :
  let digits := filter (fun c => negb (c =? 45)) (generateRequestId random16) in
  List.length digits = 32%nat /\ ~ In 45 digits.
Proof.
  cbv zeta. split.
  - unfold generateRequestId. rewrite filter_template_length; [reflexivity|].
    apply Forall_forall; auto.
  - intros H. apply filter_In in H as [_ H]. discriminate H.
Qed.

(** X16. A JSON answer of the completions endpoint is a 200 with one
    choice: index 0, an assistant message whose content is the yielded
    chunks joined, finish reason [stop].  The completion tokens are the
    ceiling of a quarter of the length of that content, the prompt tokens
    the sum of the same estimate over the messages of the request, the
    total their sum; the model is the requested one, or [glm-4.7], and
    the identifier is [chatcmpl-] followed by 32 characters without a
    dash. *)
Theorem completion_shape (w : World) (req : ChatCompletionRequest)
    (status : N) (resp : ChatCompletionResponse) :
  chat_completions w req = Json status resp ->
  status = 200
  /\ (exists text lastMessage,
        last (map Some (req_messages req)) None = Some lastMessage
        /\ join_chunks
             (yields (chatStream w (completions_session w req) (content lastMessage)))
           = Ok text
        /\ choices resp =
           [{| index := 0;
               message := {| role := lit "assistant"; content := text |};
               finish_reason := lit "stop" |}]
        /\ completion_tokens (usage resp) = ceil_div (str_length text) 4)
  /\ prompt_tokens (usage resp) =
     fold_left (fun sum msg => sum + ceil_div (str_length (content msg)) 4)
       (req_messages req) 0
  /\ total_tokens (usage resp) =
     prompt_tokens (usage resp) + completion_tokens (usage resp)
  /\ object resp = lit "chat.completion"
  /\ created resp = (now_created w / 1000)%Z
  /\ response_model resp =
     match req_model req with Some m => m | None => lit "glm-4.7" end
  /\ exists digits,
       id resp = lit "chatcmpl-" ++ digits
       /\ List.length digits = 32%nat /\ ~ In 45 digits.
Proof.
  unfold chat_completions.
  destruct (last (map Some (req_messages req)) None) as [lastMessage|];
    [|discriminate].
  destruct (match req_stream req with Some b => b | None => false end);
    [discriminate|].
  destruct (join_chunks _) as [text|e] eqn:Ej;
    [|destruct (outcome _); discriminate].
  destruct (response_id_shape (random_response_id w)) as [Hl Hd].
  destruct (outcome _).
  all: try discriminate.
  all: intros H;
    pose proof (f_equal (fun r => match r with Json s _ => s | _ => status end) H)
      as H1;
    pose proof (f_equal (fun r => match r with Json _ x => x | _ => resp end) H)
      as H2;
    cbv beta iota in H1, H2; clear H; subst status resp.
  all: cbn [choices usage completion_tokens prompt_tokens total_tokens object
         created response_model id].
  all: split; [reflexivity|].
  all: split; [exists text, lastMessage;
             split; [reflexivity|split; [exact Ej|split; reflexivity]]|].
  all: do 5 (split; [reflexivity|]).
  all: eexists; split; [reflexivity|split; [exact Hl|exact Hd]].
Qed.



End EndpointShape.

(** ** Base64 of text *)

Ltac to_prop :=
  repeat (rewrite ?orb_true_iff, ?andb_true_iff, ?orb_false_iff, ?andb_false_iff,
            ?N.leb_le, ?N.ltb_lt, ?N.eqb_eq, ?N.leb_gt, ?N.ltb_ge, ?N.eqb_neq in * ).

Lemma lor_shiftl (a y n : N) : y < 2 ^ n -> N.lor (N.shiftl a n) y = a * 2 ^ n + y.
Proof.
  intros H. rewrite N.shiftl_mul_pow2.
  assert (E : N.land (a * 2 ^ n) y = 0).
  { apply N.bits_inj_0. intros m. rewrite N.land_spec.
    destruct (N.lt_ge_cases m n) as [L|G].
    - now rewrite N.mul_pow2_bits_low.
    - destruct (N.eq_0_gt_0_cases y) as [->|Hy]; [now rewrite N.bits_0, andb_false_r|].
      rewrite (N.bits_above_log2 y m), andb_false_r; [reflexivity|].
      apply N.log2_lt_pow2 in H; [lia|exact Hy]. }
  now rewrite <- N.lxor_lor, <- N.add_nocarry_lxor.
Qed.

Lemma utf8_of_cp_div (c : N) :
  utf8_of_cp c =
  if c <? 0x80 then [c]
  else if c <? 0x800 then [0xC0 + c / 64; 0x80 + c mod 64]
  else if c <? 0x10000 then
    [0xE0 + c / 4096; 0x80 + (c / 64) mod 64; 0x80 + c mod 64]
  else
    [0xF0 + c / 262144; 0x80 + (c / 4096) mod 64;
     0x80 + (c / 64) mod 64; 0x80 + c mod 64].
Proof.
  unfold utf8_of_cp. change 0x3F with (N.ones 6).
  rewrite !N.land_ones, !N.shiftr_div_pow2. reflexivity.
Qed.

Lemma utf8_of_cp_octets (c : N) :
  c < 0x110000 -> Forall (fun b => b < 256) (utf8_of_cp c).
Proof.
  intros H. rewrite utf8_of_cp_div.
  destruct (N.ltb_spec c 0x80); [repeat constructor; lia|].
  destruct (N.ltb_spec c 0x800); [repeat constructor; lia|].
  destruct (N.ltb_spec c 0x10000); repeat constructor; lia.
Qed.

Lemma hex_value_upper (d : N) : d < 16 -> hex_value (hex_digit true d) = Some d.
Proof.
  intros H. unfold hex_value, hex_digit.
  destruct (N.ltb_spec d 10).
  - replace ((48 <=? 48 + d) && (48 + d <=? 57)) with true
      by (symmetry; to_prop; lia).
    f_equal. lia.
  - replace ((48 <=? 55 + d) && (55 + d <=? 57)) with false
      by (symmetry; to_prop; lia).
    replace ((65 <=? 55 + d) && (55 + d <=? 70)) with true
      by (symmetry; to_prop; lia).
    f_equal. lia.
Qed.

Lemma hex2_percent (b : octet) :
  b < 256 -> hex2 (hex_digit true (b / 16)) (hex_digit true (b mod 16)) = Some b.
Proof.
  intros H. unfold hex2. rewrite !hex_value_upper by lia. f_equal. lia.
Qed.

Lemma hex_digit_not_u (d : N) : d < 16 -> (hex_digit true d =? 117) = false.
Proof.
  intros H. apply N.eqb_neq. unfold hex_digit. destruct (N.ltb_spec d 10); lia.
Qed.

Lemma unescape_percent (b : octet) (rest : jsstring) :
  b < 256 -> unescape (percent b ++ rest) = b :: unescape rest.
Proof.
  intros H. unfold percent. cbn [app unescape].
  change (37 =? 37) with true. cbv iota.
  rewrite hex_digit_not_u by lia. now rewrite hex2_percent.
Qed.

Lemma unescape_percents (bs : list octet) (rest : jsstring) :
  Forall (fun b => b < 256) bs ->
  unescape (flat_map percent bs ++ rest) = bs ++ unescape rest.
Proof.
  induction 1 as [|b bs Hb _ IH]; [reflexivity|].
  cbn [flat_map]. rewrite <- app_assoc, unescape_percent by exact Hb.
  now rewrite IH.
Qed.

Lemma unescape_plain (c : cu) (rest : jsstring) :
  c <> 37 -> unescape (c :: rest) = c :: unescape rest.
Proof.
  intros H. cbn [unescape]. apply N.eqb_neq in H. now rewrite H.
Qed.

Lemma uri_unreserved_ascii (c : N) : uri_unreserved c = true -> c < 128 /\ c <> 37.
Proof.
  unfold uri_unreserved, is_alnum. cbn [existsb]. to_prop. lia.
Qed.

Lemma encode_code_points_Some (cps : list N) :
  encode_code_points (map Some cps) = Ok (flat_map uri_encoded cps).
Proof.
  induction cps as [|c cps IH]; [reflexivity|].
  cbn [map encode_code_points flat_map]. rewrite IH. reflexivity.
Qed.

Lemma encode_code_points_None (ps : list (option N)) :
  In None ps -> encode_code_points ps = Throw URIError.
Proof.
  induction ps as [|[c|] ps IH]; intros H; [destruct H| |reflexivity].
  destruct H as [H|H]; [discriminate|].
  cbn [encode_code_points]. now rewrite IH.
Qed.

Lemma unescape_encoded (cps : list N) :
  Forall scalar cps ->
  unescape (flat_map uri_encoded cps) = flat_map utf8_of_cp cps.
Proof.
  induction 1 as [|c cps [Hc _] _ IH]; [reflexivity|].
  cbn [flat_map]. unfold uri_encoded at 1.
  destruct (uri_unreserved c) eqn:E.
  - apply uri_unreserved_ascii in E as [Hlt Hne].
    cbn [app]. rewrite unescape_plain, IH by exact Hne.
    rewrite (utf8_of_cp_div c). apply N.ltb_lt in Hlt. now rewrite Hlt.
  - rewrite unescape_percents, IH by now apply utf8_of_cp_octets.
    reflexivity.
Qed.

Lemma list_ind2 {A : Type} (P : list A -> Prop) :
  P [] -> (forall a, P [a]) ->
  (forall a b l, P l -> P (b :: l) -> P (a :: b :: l)) ->
  forall l, P l.
Proof.
  intros H0 H1 H2 l.
  assert (H : P l /\ forall a, P (a :: l)); [|exact (proj1 H)].
  induction l as [|b l [IH1 IH2]]; [now split|].
  split; [apply IH2|]. intros a. apply H2; [exact IH1|apply IH2].
Qed.

Lemma cp_of_pair_div (hi lo : cu) :
  cp_of_pair hi lo = 0x10000 + (hi - 0xD800) * 1024 + (lo - 0xDC00).
Proof. unfold cp_of_pair. now rewrite N.shiftl_mul_pow2. Qed.

Lemma utf16_of_cp_div (c : N) :
  utf16_of_cp c =
  if c <? 0x10000 then [c]
  else [0xD800 + (c - 0x10000) / 1024; 0xDC00 + (c - 0x10000) mod 1024].
Proof.
  unfold utf16_of_cp. change 0x3FF with (N.ones 10).
  now rewrite N.land_ones, N.shiftr_div_pow2.
Qed.

Lemma code_points_pair (c d : cu) (s : jsstring) :
  code_points (c :: d :: s) =
  if is_high_surrogate c then
    if is_low_surrogate d then Some (cp_of_pair c d) :: code_points s
    else None :: code_points (d :: s)
  else if is_low_surrogate c then None :: code_points (d :: s)
  else Some c :: code_points (d :: s).
Proof. reflexivity. Qed.

(** The code points of a well-formed string, and the string back from
    them. *)
Lemma code_points_well_formed (s : jsstring) :
  well_formed s ->
  exists cps, code_points s = map Some cps
              /\ Forall scalar cps
              /\ flat_map utf16_of_cp cps = s.
Proof.
  unfold well_formed. induction s as [|c|c d s IH1 IH2] using list_ind2;
    intros [Hu Hn].
  - exists []. repeat split; constructor.
  - revert Hn. cbn [code_points]. inversion_clear Hu as [|? ? Hc _].
    destruct (is_high_surrogate c) eqn:Eh; [intros []; now left|].
    destruct (is_low_surrogate c) eqn:El; [intros []; now left|]. intros _.
    exists [c]. unfold is_high_surrogate, is_low_surrogate in *. to_prop.
    repeat split; [repeat constructor; unfold scalar; lia|].
    cbn [flat_map]. rewrite utf16_of_cp_div.
    apply N.ltb_lt in Hc. now rewrite Hc.
  - revert Hn. rewrite code_points_pair.
    inversion Hu as [|? ? Hc Hu1]; subst.
    inversion Hu1 as [|? ? Hd Hu2]; subst.
    destruct (is_high_surrogate c) eqn:Eh.
    + destruct (is_low_surrogate d) eqn:El; [|intros []; now left].
      intros Hn. destruct IH1 as (cps & E & Hs & Hb).
      { split; [exact Hu2|]. intros H. apply Hn. now right. }
      exists (cp_of_pair c d :: cps). rewrite E.
      unfold is_high_surrogate, is_low_surrogate in *. to_prop.
      repeat split.
      * constructor; [|exact Hs]. rewrite cp_of_pair_div. unfold scalar. lia.
      * cbn [flat_map]. rewrite Hb, utf16_of_cp_div, cp_of_pair_div.
        replace (_ <? _) with false by (symmetry; to_prop; lia).
        cbn [app]. f_equal; [lia|]. f_equal. lia.
    + destruct (is_low_surrogate c) eqn:El; [intros []; now left|].
      intros Hn. destruct IH2 as (cps & E & Hs & Hb).
      { split; [exact Hu1|]. intros H. apply Hn. now right. }
      exists (c :: cps). rewrite E.
      unfold is_high_surrogate, is_low_surrogate in *. to_prop.
      repeat split.
      * constructor; [unfold scalar; lia|exact Hs].
      * cbn [flat_map]. rewrite Hb, utf16_of_cp_div.
        apply N.ltb_lt in Hc. now rewrite Hc.
Qed.

Lemma TextEncoder_encode_Some (s : jsstring) (cps : list N) :
  code_points s = map Some cps -> TextEncoder_encode s = flat_map utf8_of_cp cps.
Proof.
  unfold TextEncoder_encode. intros ->.
  induction cps as [|c cps IH]; [reflexivity|].
  cbn [map flat_map]. now rewrite IH.
Qed.

Lemma flat_map_Forall {A B : Type} (P : B -> Prop) (f : A -> list B) (l : list A) :
  Forall (fun a => Forall P (f a)) l -> Forall P (flat_map f l).
Proof.
  induction 1 as [|a l Ha _ IH]; [constructor|].
  cbn [flat_map]. apply Forall_app. now split.
Qed.

Lemma utf8_octets (cps : list N) :
  Forall scalar cps -> Forall (fun b => b < 256) (flat_map utf8_of_cp cps).
Proof.
  intros H. apply flat_map_Forall. eapply Forall_impl; [|exact H].
  intros c [Hc _]. now apply utf8_of_cp_octets.
Qed.

Lemma btoa_octets (bs : list octet) :
  Forall (fun b => b < 256) bs -> btoa bs = Ok (b64_encode bs).
Proof.
  intros H. unfold btoa.
  replace (forallb _ bs) with true; [reflexivity|].
  symmetry. apply forallb_forall. intros b Hb.
  rewrite Forall_forall in H. apply H in Hb. to_prop. lia.
Qed.

(** [base64Encode] is base64 over UTF-8. *)
Lemma base64Encode_well_formed (s : jsstring) :
  well_formed s -> base64Encode s = Ok (b64_encode (TextEncoder_encode s)).
Proof.
  intros H. destruct (code_points_well_formed s H) as (cps & E & Hs & _).
  unfold base64Encode, encodeURIComponent.
  rewrite E, encode_code_points_Some. cbn [bind].
  rewrite unescape_encoded by exact Hs.
  rewrite (TextEncoder_encode_Some s cps E).
  now apply btoa_octets, utf8_octets.
Qed.

Lemma b64_value_char (i : N) : i < 64 -> b64_value (b64_char i) = Some i.
Proof.
  intros H. unfold b64_char.
  destruct (N.ltb_spec i 26); [|destruct (N.ltb_spec i 52);
    [|destruct (N.ltb_spec i 62); [|destruct (N.eqb_spec i 62)]]];
    unfold b64_value;
    repeat match goal with
    | |- context [(?a <=? ?b) && (?c <=? ?d)] =>
        first [ replace ((a <=? b) && (c <=? d)) with true
                  by (symmetry; to_prop; lia)
              | replace ((a <=? b) && (c <=? d)) with false
                  by (symmetry; to_prop; lia) ]
    end;
    try (f_equal; lia).
  - subst i. reflexivity.
  - assert (i = 63) as -> by lia. reflexivity.
Qed.

Lemma b64_values_chars (vs : list N) :
  Forall (fun v => v < 64) vs -> b64_values (map b64_char vs) = Some vs.
Proof.
  induction 1 as [|v vs Hv _ IH]; [reflexivity|].
  cbn [map b64_values]. now rewrite b64_value_char, IH.
Qed.

Lemma whitespace_no_value (c : cu) : is_ascii_whitespace c = true -> b64_value c = None.
Proof.
  unfold is_ascii_whitespace. to_prop.
  intros [[[[->| ->]| ->]| ->]| ->]; reflexivity.
Qed.

Lemma b64_char_plain (i : N) :
  i < 64 -> is_ascii_whitespace (b64_char i) = false /\ b64_char i <> 61.
Proof.
  intros H. pose proof (b64_value_char i H) as E. split.
  - destruct (is_ascii_whitespace (b64_char i)) eqn:W; [|reflexivity].
    apply whitespace_no_value in W. congruence.
  - intros E'. rewrite E' in E. discriminate E.
Qed.

Lemma list_ind3 {A : Type} (P : list A -> Prop) :
  P [] -> (forall a, P [a]) -> (forall a b, P [a; b]) ->
  (forall a b c l, P l -> P (a :: b :: c :: l)) ->
  forall l, P l.
Proof.
  intros H0 H1 H2 H3 l.
  assert (H : P l /\ (forall a, P (a :: l)) /\ forall a b, P (a :: b :: l));
    [|exact (proj1 H)].
  induction l as [|c l (IH1 & IH2 & IH3)]; [now repeat split|].
  repeat split; [apply IH2|intros a; apply IH3|].
  intros a b. now apply H3.
Qed.

(** The shape of [b64_encode]: characters of the alphabet standing for
    sextets that regroup into the input, then at most two [=] filling the
    last group of four. *)
Lemma b64_encode_shape (bs : list octet) :
  Forall (fun b => b < 256) bs ->
  exists vs pad,
    b64_encode bs = map b64_char vs ++ pad
    /\ Forall (fun v => v < 64) vs
    /\ b64_octets vs = bs
    /\ (exists q, (List.length vs = 4 * q)%nat /\ pad = []
                  \/ (List.length vs = 4 * q + 3)%nat /\ pad = [61]
                  \/ (List.length vs = 4 * q + 2)%nat /\ pad = [61; 61]).
Proof.
  induction bs as [|a|a b|a b c bs IH] using list_ind3; intros H.
  - exists [], []. repeat split; [constructor|]. exists 0%nat. now left.
  - inversion_clear H as [|? ? Ha _].
    exists [a / 4; (a mod 4) * 16], [61; 61].
    repeat split; [repeat constructor; lia|cbn [b64_octets]; f_equal; lia|].
    exists 0%nat. right. right. now split.
  - inversion_clear H as [|? ? Ha H']. inversion_clear H' as [|? ? Hb _].
    exists [a / 4; (a mod 4) * 16 + b / 16; (b mod 16) * 4], [61].
    repeat split;
      [repeat constructor; lia
      |cbn [b64_octets]; f_equal; [lia|f_equal; lia]|].
    exists 0%nat. right. left. now split.
  - inversion_clear H as [|? ? Ha H']. inversion_clear H' as [|? ? Hb H''].
    inversion_clear H'' as [|? ? Hc H'].
    destruct (IH H') as (vs & pad & E & Hv & Ho & q & Hq).
    exists ([a / 4; (a mod 4) * 16 + b / 16; (b mod 16) * 4 + c / 64; c mod 64]
            ++ vs), pad.
    repeat split.
    + cbn [b64_encode]. rewrite E. reflexivity.
    + repeat constructor; try lia. exact Hv.
    + cbn [app b64_octets]. rewrite Ho. f_equal; [lia|].
      f_equal; [lia|]. f_equal. lia.
    + exists (S q). cbn [app List.length].
      destruct Hq as [[-> ->]|[[-> ->]|[-> ->]]];
        [left|right; left|right; right]; split; (lia || reflexivity).
Qed.

Lemma filter_all {A : Type} (f : A -> bool) (l : list A) :
  Forall (fun a => f a = true) l -> filter f l = l.
Proof.
  induction 1 as [|a l Ha _ IH]; [reflexivity|].
  cbn [filter]. now rewrite Ha, IH.
Qed.

Lemma mod4 (q r : nat) : (r < 4)%nat -> ((4 * q + r) mod 4 = r)%nat.
Proof.
  intros H. replace (4 * q + r)%nat with (r + q * 4)%nat by lia.
  rewrite Nat.Div0.mod_add. now apply Nat.mod_small.
Qed.

(** What [atob] does with a last character that is not [=]. *)
Lemma no_padding {A : Type} (x : cu) (r : list cu) (a b : list cu -> A) (c : A) :
  x <> 61 ->
  match x :: r with
  | 61 :: 61 :: r' => a r'
  | 61 :: r' => b r'
  | _ => c
  end = c.
Proof.
  intros H. destruct x as [|p]; [reflexivity|].
  do 6 (try destruct p as [p|p|]; try reflexivity). contradiction.
Qed.

Lemma one_padding {A : Type} (x : cu) (r : list cu) (a b : list cu -> A) (c : A) :
  x <> 61 ->
  match 61 :: x :: r with
  | 61 :: 61 :: r' => a r'
  | 61 :: r' => b r'
  | _ => c
  end = b (x :: r).
Proof.
  intros H. destruct x as [|p]; [reflexivity|].
  do 6 (try destruct p as [p|p|]; try reflexivity). contradiction.
Qed.

(** [atob] undoes [b64_encode]. *)
Lemma atob_b64_encode (bs : list octet) :
  Forall (fun b => b < 256) bs -> atob (b64_encode bs) = Ok bs.
Proof.
  intros H. destruct (b64_encode_shape bs H) as (vs & pad & E & Hv & Ho & q & Hq).
  assert (Hplain : Forall (fun c => is_ascii_whitespace c = false /\ c <> 61)
                     (map b64_char vs)).
  { apply Forall_forall. intros c Hc. apply in_map_iff in Hc as (v & <- & Hin).
    rewrite Forall_forall in Hv. now apply b64_char_plain, Hv. }
  assert (Hlast : forall x r, rev (map b64_char vs) = x :: r -> x <> 61).
  { intros x r Er. rewrite Forall_forall in Hplain.
    apply (Hplain x). apply in_rev. rewrite Er. now left. }
  unfold atob. rewrite E.
  rewrite filter_all.
  2:{ apply Forall_app. split.
      - eapply Forall_impl; [|exact Hplain]. intros c [-> _]. reflexivity.
      - destruct Hq as [[_ ->]|[[_ ->]|[_ ->]]]; repeat constructor. }
  rewrite length_app, length_map, rev_app_distr.
  destruct Hq as [[El ->]|[[El ->]|[El ->]]]; rewrite El; cbn [List.length rev app].
  - rewrite (mod4 q 0) by lia. cbn [Nat.eqb].
    rewrite app_nil_r.
    destruct (rev (map b64_char vs)) as [|x r] eqn:Er.
    + rewrite length_map, El, <- (Nat.add_0_r (4 * q)), (mod4 q 0) by lia.
      cbn [Nat.eqb]. now rewrite b64_values_chars, Ho.
    + rewrite (no_padding x r) by (eapply Hlast; reflexivity).
      rewrite length_map, El, <- (Nat.add_0_r (4 * q)), (mod4 q 0) by lia.
      cbn [Nat.eqb].
      now rewrite b64_values_chars, Ho.
  - replace (4 * q + 3 + 1)%nat with (4 * S q + 0)%nat by lia.
    rewrite (mod4 (S q) 0) by lia. cbn [Nat.eqb].
    destruct (rev (map b64_char vs)) as [|x r] eqn:Er.
    + apply (f_equal (@List.length _)) in Er.
      rewrite length_rev, length_map, El in Er. cbn in Er. lia.
    + rewrite (one_padding x r _ _ (map b64_char vs ++ [61]))
        by (eapply Hlast; reflexivity).
      rewrite <- Er, rev_involutive.
      rewrite length_map, El, (mod4 q 3) by lia. cbn [Nat.eqb].
      now rewrite b64_values_chars, Ho.
  - replace (4 * q + 2 + 2)%nat with (4 * S q + 0)%nat by lia.
    rewrite (mod4 (S q) 0) by lia. cbn [Nat.eqb].
    rewrite rev_involutive.
    rewrite length_map, El, (mod4 q 2) by lia. cbn [Nat.eqb].
    now rewrite b64_values_chars, Ho.
Qed.

Lemma escape_unreserved_ascii (c : N) :
  escape_unreserved c = true -> c < 128 /\ c <> 37.
Proof.
  unfold escape_unreserved, is_alnum. cbn [existsb]. to_prop. lia.
Qed.

Lemma item_of_high (b : octet) : 128 <= b -> item_of b = Escaped b.
Proof.
  intros H. unfold item_of. destruct (escape_unreserved b) eqn:E; [|reflexivity].
  apply escape_unreserved_ascii in E. lia.
Qed.

Lemma uri_items_percent (b : octet) (rest : jsstring) :
  b < 256 ->
  uri_items (percent b ++ rest) = let! r := uri_items rest in Ok (Escaped b :: r).
Proof.
  intros H. unfold percent. cbn [app uri_items].
  change (37 =? 37) with true. cbv iota. now rewrite hex2_percent.
Qed.

Lemma uri_items_plain (c : cu) (rest : jsstring) :
  c <> 37 ->
  uri_items (c :: rest) = let! r := uri_items rest in Ok (Plain c :: r).
Proof.
  intros H. cbn [uri_items]. apply N.eqb_neq in H. now rewrite H.
Qed.

Lemma uri_items_escape (bs : list octet) :
  Forall (fun b => b < 256) bs -> uri_items (escape bs) = Ok (map item_of bs).
Proof.
  unfold escape. induction 1 as [|b bs Hb _ IH]; [reflexivity|].
  cbn [flat_map map]. unfold item_of at 1.
  destruct (escape_unreserved b) eqn:E.
  - apply escape_unreserved_ascii in E as [_ E].
    cbn [app]. rewrite uri_items_plain, IH by exact E. reflexivity.
  - apply N.ltb_lt in Hb as Hb'. rewrite Hb'.
    rewrite uri_items_percent, IH by exact Hb. reflexivity.
Qed.

Ltac split_tests :=
  repeat match goal with
  | |- context [?a <=? ?b] => destruct (N.leb_spec a b); try lia
  | |- context [?a <? ?b] => destruct (N.ltb_spec a b); try lia
  | |- context [?a =? ?b] => destruct (N.eqb_spec a b); try lia
  end.

Lemma land_low (a n : N) : N.land a (N.ones n) = a mod 2 ^ n.
Proof. apply N.land_ones. Qed.

Lemma utf8_lead_ascii (b : octet) : b < 128 -> utf8_lead b = (utf8_start, [Some b]).
Proof. intros H. unfold utf8_lead. now split_tests. Qed.

Lemma utf8_lead_two (x : N) :
  2 <= x < 32 ->
  utf8_lead (0xC0 + x) =
  ({| u_cp := x; u_seen := 0; u_needed := 1; u_lower := 0x80; u_upper := 0xBF |}, []).
Proof.
  intros H. unfold utf8_lead. change 0x1F with (N.ones 5). rewrite land_low.
  change (2 ^ 5) with 32. split_tests. cbn [andb]. do 2 f_equal. lia.
Qed.

Lemma utf8_lead_three (x : N) :
  x < 16 ->
  utf8_lead (0xE0 + x) =
  ({| u_cp := x; u_seen := 0; u_needed := 2;
      u_lower := if x =? 0 then 0xA0 else 0x80;
      u_upper := if x =? 13 then 0x9F else 0xBF |}, []).
Proof.
  intros H. unfold utf8_lead. change 0xF with (N.ones 4). rewrite land_low.
  change (2 ^ 4) with 16.
  replace (0xE0 + x =? 0xE0) with (x =? 0)
    by (destruct (N.eqb_spec x 0), (N.eqb_spec (0xE0 + x) 0xE0); lia || reflexivity).
  replace (0xE0 + x =? 0xED) with (x =? 13)
    by (destruct (N.eqb_spec x 13), (N.eqb_spec (0xE0 + x) 0xED); lia || reflexivity).
  replace ((0xE0 + x) mod 16) with x by lia.
  destruct (N.leb_spec (0xE0 + x) 0x7F); [lia|].
  destruct (N.leb_spec 0xC2 (0xE0 + x)); [|lia].
  destruct (N.leb_spec (0xE0 + x) 0xDF); [lia|].
  destruct (N.leb_spec 0xE0 (0xE0 + x)); [|lia].
  destruct (N.leb_spec (0xE0 + x) 0xEF); [|lia].
  reflexivity.
Qed.

Lemma utf8_lead_four (x : N) :
  x < 5 ->
  utf8_lead (0xF0 + x) =
  ({| u_cp := x; u_seen := 0; u_needed := 3;
      u_lower := if x =? 0 then 0x90 else 0x80;
      u_upper := if x =? 4 then 0x8F else 0xBF |}, []).
Proof.
  intros H. unfold utf8_lead. change 0x7 with (N.ones 3). rewrite land_low.
  change (2 ^ 3) with 8.
  replace (0xF0 + x =? 0xF0) with (x =? 0)
    by (destruct (N.eqb_spec x 0), (N.eqb_spec (0xF0 + x) 0xF0); lia || reflexivity).
  replace (0xF0 + x =? 0xF4) with (x =? 4)
    by (destruct (N.eqb_spec x 4), (N.eqb_spec (0xF0 + x) 0xF4); lia || reflexivity).
  replace ((0xF0 + x) mod 8) with x by lia.
  destruct (N.leb_spec (0xF0 + x) 0x7F); [lia|].
  destruct (N.leb_spec 0xC2 (0xF0 + x)); [|lia].
  destruct (N.leb_spec (0xF0 + x) 0xDF); [lia|].
  destruct (N.leb_spec 0xE0 (0xF0 + x)); [|lia].
  destruct (N.leb_spec (0xF0 + x) 0xEF); [lia|].
  destruct (N.leb_spec 0xF0 (0xF0 + x)); [|lia].
  destruct (N.leb_spec (0xF0 + x) 0xF4); [|lia].
  reflexivity.
Qed.

Lemma utf8_continuation (cp seen needed lo hi y : N) :
  needed <> 0 -> y < 64 -> lo <= 0x80 + y <= hi ->
  utf8_handler {| u_cp := cp; u_seen := seen; u_needed := needed;
                  u_lower := lo; u_upper := hi |} (0x80 + y) =
  if seen + 1 =? needed then (utf8_start, [Some (cp * 64 + y)])
  else ({| u_cp := cp * 64 + y; u_seen := seen + 1; u_needed := needed;
           u_lower := 0x80; u_upper := 0xBF |}, []).
Proof.
  intros Hn Hy Hr. unfold utf8_handler. cbn [u_cp u_seen u_needed u_lower u_upper].
  change 0x3F with (N.ones 6). rewrite land_low. change (2 ^ 6) with 64.
  replace ((0x80 + y) mod 64) with y by lia.
  rewrite (lor_shiftl cp y 6) by (change (2 ^ 6) with 64; exact Hy).
  change (2 ^ 6) with 64.
  destruct (N.eqb_spec needed 0); [contradiction|].
  destruct (N.ltb_spec (0x80 + y) lo); [lia|].
  destruct (N.ltb_spec hi (0x80 + y)); [lia|].
  reflexivity.
Qed.

Lemma uri_decode_escaped (st : utf8_state) (b : octet) (rest : list uri_item) :
  uri_decode st (Escaped b :: rest) =
  match utf8_handler st b with
  | (st', []) => uri_decode st' rest
  | (st', [Some c]) => let! r := uri_decode st' rest in Ok (utf16_of_cp c ++ r)
  | _ => Throw URIError
  end.
Proof. reflexivity. Qed.

Lemma utf8_handler_start (b : octet) : utf8_handler utf8_start b = utf8_lead b.
Proof. reflexivity. Qed.

(** The octets of one code point, read back. *)
Lemma uri_decode_cp (c : N) (items : list uri_item) :
  scalar c ->
  uri_decode utf8_start (map item_of (utf8_of_cp c) ++ items) =
  let! r := uri_decode utf8_start items in Ok (utf16_of_cp c ++ r).
Proof.
  intros [Hc Hs]. rewrite utf8_of_cp_div.
  destruct (N.ltb_spec c 0x80); [|destruct (N.ltb_spec c 0x800);
    [|destruct (N.ltb_spec c 0x10000)]]; cbn [map app].
  - assert (E : utf16_of_cp c = [c]).
    { rewrite utf16_of_cp_div. now destruct (N.ltb_spec c 0x10000); [|lia]. }
    rewrite E. unfold item_of. destruct (escape_unreserved c).
    + reflexivity.
    + rewrite uri_decode_escaped, utf8_handler_start, utf8_lead_ascii by lia.
      cbv beta iota. now rewrite E.
  - rewrite !item_of_high by lia.
    rewrite uri_decode_escaped, utf8_handler_start, utf8_lead_two by lia.
    cbv beta iota.
    rewrite uri_decode_escaped, utf8_continuation by lia.
    change (0 + 1 =? 1) with true. cbv beta iota.
    replace (c / 64 * 64 + c mod 64) with c by lia. reflexivity.
  - rewrite !item_of_high by lia.
    rewrite uri_decode_escaped, utf8_handler_start, utf8_lead_three by lia.
    cbv beta iota.
    rewrite uri_decode_escaped, utf8_continuation;
      [|lia|lia
       |destruct (N.eqb_spec (c / 4096) 0), (N.eqb_spec (c / 4096) 13); lia].
    change (0 + 1 =? 2) with false. cbv beta iota.
    rewrite uri_decode_escaped, utf8_continuation by lia.
    change (0 + 1 + 1 =? 2) with true. cbv beta iota.
    replace ((c / 4096 * 64 + c / 64 mod 64) * 64 + c mod 64) with c by lia.
    reflexivity.
  - rewrite !item_of_high by lia.
    rewrite uri_decode_escaped, utf8_handler_start, utf8_lead_four by lia.
    cbv beta iota.
    rewrite uri_decode_escaped, utf8_continuation;
      [|lia|lia
       |destruct (N.eqb_spec (c / 262144) 0), (N.eqb_spec (c / 262144) 4); lia].
    change (0 + 1 =? 3) with false. cbv beta iota.
    rewrite uri_decode_escaped, utf8_continuation by lia.
    change (0 + 1 + 1 =? 3) with false. cbv beta iota.
    rewrite uri_decode_escaped, utf8_continuation by lia.
    change (0 + 1 + 1 + 1 =? 3) with true. cbv beta iota.
    replace (((c / 262144 * 64 + c / 4096 mod 64) * 64 + c / 64 mod 64) * 64
             + c mod 64) with c by lia.
    reflexivity.
Qed.

Lemma uri_decode_text (cps : list N) :
  Forall scalar cps ->
  uri_decode utf8_start (map item_of (flat_map utf8_of_cp cps)) =
  Ok (flat_map utf16_of_cp cps).
Proof.
  induction 1 as [|c cps Hc _ IH]; [reflexivity|].
  cbn [flat_map]. rewrite map_app, uri_decode_cp, IH by exact Hc. reflexivity.
Qed.

(** [base64Decode] reads back base64 over UTF-8. *)
Lemma base64Decode_utf8 (s : jsstring) :
  well_formed s -> base64Decode (b64_encode (TextEncoder_encode s)) = Ok s.
Proof.
  intros H. destruct (code_points_well_formed s H) as (cps & E & Hs & Hb).
  rewrite (TextEncoder_encode_Some s cps E).
  unfold base64Decode. rewrite atob_b64_encode by now apply utf8_octets.
  cbn [bind]. unfold decodeURIComponent.
  rewrite uri_items_escape by now apply utf8_octets.
  cbn [bind]. now rewrite uri_decode_text, Hb.
Qed.

(** X19. [base64Encode] is base64 over the UTF-8 encoding of its
    argument; it throws, a URIError, exactly when the argument has a
    surrogate that is not half of a pair. *)
Theorem base64Encode_is_base64_of_utf8 (s : jsstring) :
  Forall (fun c => c < 65536) s ->
  match base64Encode s with
  | Ok e => well_formed s /\ e = b64_encode (TextEncoder_encode s)
  | Throw x => In None (code_points s) /\ x = URIError
  end.
Proof.
  intros H.
  assert (D : forall a b : option N, {a = b} + {a <> b})
    by (decide equality; apply N.eq_dec).
  destruct (in_dec D None (code_points s)) as [Hin|Hout].
  - unfold base64Encode, encodeURIComponent.
    rewrite encode_code_points_None by exact Hin. now split.
  - rewrite base64Encode_well_formed by now split. now repeat split.
Qed.

(** X20. Decoding what [base64Encode] gives returns the text: for a
    string in which every surrogate is half of a pair, [base64Encode]
    succeeds and [base64Decode] of its result is the string. *)
Theorem base64_round_trip (s : jsstring) :
  well_formed s ->
  exists e, base64Encode s = Ok e /\ base64Decode e = Ok s.
Proof.
  intros H. eexists. split; [now apply base64Encode_well_formed|].
  now apply base64Decode_utf8.
Qed.

(** ** The window of a signature *)

(** X21. The key of a signature is derived from the five-minute window of
    its timestamp and from nothing else of it: two timestamps give the
    same bucket text exactly when they fall in the same window of 300000
    milliseconds. *)
Theorem bucket_is_the_window (t1 t2 : Z) :
  bucket_toString (bucket_of (Z_toString t1)) =
  bucket_toString (bucket_of (Z_toString t2))
  <-> (t1 / 300000 = t2 / 300000)%Z.
Proof.
  split.
  - intros E. destruct (Z.eq_dec (t1 / 300000) (t2 / 300000)) as [H|H];
      [exact H|].
    now apply different_windows_different_bucket_text in H.
  - intros H. rewrite !bucket_of_timestamp, H. reflexivity.
Qed.

(** * Further checks *)

Module FurtherChecks.
Import Basic Examples FurtherExamples.

Lemma server_key_without_prefix_locks_out_example :
  exists message,
    validateApiKey (Some (lit "secret"))
      {| path := lit "/chat"; authorization := Some (lit "Bearer sk-secret") |}
    = Rejected 401 message.
Proof.
  apply (server_key_without_prefix_locks_out (lit "secret")
           {| path := lit "/chat"; authorization := Some (lit "Bearer sk-secret") |});
    [discriminate|reflexivity|discriminate].
Defined.

Lemma request_id_is_uuid_v4_example :
  Forall (fun r => r < 16) [1; 2; 3]
  /\ List.length (generateRequestId [1; 2; 3]) = 36%nat
  /\ nth 14 (generateRequestId [1; 2; 3]) 0 = 52.
Proof.
  assert (H : Forall (fun r => r < 16) [1; 2; 3]) by (repeat constructor).
  split; [exact H|].
  destruct (request_id_is_uuid_v4 [1; 2; 3] H) as (H1 & _ & _ & H4 & _).
  split; [exact H1|exact H4].
Defined.

Lemma signature_ignores_token_example :
  map_result (fun r => (signature r, timestamp r))
    (generateZaSignature world (lit "Hello") (VStr (lit "tok")) (VStr (lit "u1"))
       (lit "salt")) =
  map_result (fun r => (signature r, timestamp r))
    (generateZaSignature world (lit "Hello") VNull (VStr (lit "u1")) (lit "salt")).
Proof.
  apply (signature_ignores_token world (lit "Hello") (lit "salt")
           (lit "tok") (lit "null")); reflexivity.
Defined.

Lemma signed_query_string_example :
  exists r,
    generateZaSignature world (lit "Hello") (VStr (lit "a b")) (VStr (lit "u1"))
      (lit "salt") = Ok r
    /\ urlParams r =
       lit "timestamp=" ++ Z_toString (now_signing world)
       ++ lit "&requestId=" ++ generateRequestId (random_request_id world)
       ++ lit "&user_id=" ++ form_encode (lit "u1")
       ++ lit "&version=0.0.1&platform=web&token=" ++ form_encode (lit "a b")
       ++ lit "&user_agent=Mozilla%2F5.0+%28Windows+NT+10.0%3B+Win64%3B+x64%29+Chrome%2F120.0.0.0"
       ++ lit "&language=en-US&screen_resolution=1920x1080&viewport_size=1920x1080"
       ++ lit "&timezone=Europe%2FParis&timezone_offset=-60&signature_timestamp="
       ++ Z_toString (now_signing world).
Proof.
  assert (H : Forall (fun x => x < 16) (random_request_id world))
    by (repeat constructor).
  destruct (generateZaSignature world (lit "Hello") (VStr (lit "a b"))
              (VStr (lit "u1")) (lit "salt")) as [r|e] eqn:E;
    [|vm_compute in E; discriminate E].
  exists r. split; [reflexivity|].
  exact (signed_query_string world (lit "Hello") (lit "salt") (lit "a b")
           (lit "u1") r H E).
Defined.

(** A comment line between two events. *)
Lemma other_lines_are_ignored_example :
  stream_translator {| chunks := chunks_with_comment; ending := Closed |} =
  stream_translator {| chunks := chunks_without_cut_event; ending := Closed |}.
Proof.
  refine (proj1 (other_lines_are_ignored world session (lit "Hello")
                   chunks_with_comment chunks_without_cut_event Closed
                   [quoted "data: {'data':{'delta_content':'Hi'}}"]
                   (quoted ": keep-alive")
                   (quoted "data: {'data':{'delta_content':' there'}}" ++ [NL])
                   _ _ _ _ _)).
  - repeat constructor. apply Checks.is_line_check. reflexivity.
  - apply Checks.is_line_check. reflexivity.
  - reflexivity.
  - vm_compute. reflexivity.
  - vm_compute. reflexivity.
Defined.

Lemma no_body_no_delta_example :
  chatStream world_unavailable session (lit "Hello") =
  {| yields := [];
     outcome := Thrown;
     session_after :=
       push_message session {| role := lit "user"; content := lit "Hello" |} |}.
Proof.
  apply (no_body_no_delta world_unavailable session (lit "Hello")).
  right. left. exists 503, None. reflexivity.
Defined.

Lemma segment_length_decides_decoding_example :
  token (initializeZChat world_undecodable) = VStr (lit "h.eyJpZCI6IjEyMyJ9.s")
  /\ user_id (initializeZChat world_undecodable) = VStr []
  /\ user_name (initializeZChat world_undecodable) = lit "Guest".
Proof.
  refine (proj2 (segment_length_decides_decoding world_undecodable
                   (lit "h.eyJpZCI6IjEyMyJ9.s") (lit "h") (lit "eyJpZCI6IjEyMyJ9")
                   (lit "s") _ _ _)).
  - vm_compute. reflexivity.
  - vm_compute. reflexivity.
  - vm_compute. discriminate.
Defined.

Lemma completion_shape_example :
  exists resp,
    chat_completions world hello = Json 200 resp
    /\ object resp = lit "chat.completion"
    /\ created resp = (now_created world / 1000)%Z
    /\ response_model resp = lit "glm-4.7".
Proof.
  destruct (chat_completions world hello) as [status resp|status|frames] eqn:E;
    try (vm_compute in E; discriminate E).
  destruct (completion_shape world hello status resp E)
    as (-> & _ & _ & _ & Ho & Hc & Hm & _).
  exists resp. repeat split; assumption.
Defined.



Lemma base64Encode_is_base64_of_utf8_example :
  match base64Encode (lit "Hello") with
  | Ok e => well_formed (lit "Hello")
            /\ e = b64_encode (TextEncoder_encode (lit "Hello"))
  | Throw x => In None (code_points (lit "Hello")) /\ x = URIError
  end.
Proof.
  apply (base64Encode_is_base64_of_utf8 (lit "Hello")). repeat constructor.
Defined.

Lemma base64_round_trip_example :
  exists e,
    base64Encode accented = Ok e
    /\ base64Decode e = Ok accented.
Proof.
  apply (base64_round_trip accented).
  split; [repeat constructor|].
  vm_compute. intros [H|[H|[H|[H|[]]]]]; discriminate H.
Defined.

End FurtherChecks.
